(** * Material usage aggregation engine (lib/aggregator.py)

    A shallow embedding of the aggregation module: the list exploder, the
    chunk planner, the extraction and aggregation stages, the usage summary,
    the unused snapshot, the duplicate detector and the summary lookup,
    together with the properties the specification states about them. *)

From Stdlib Require Import ZArith Ascii String List Lia Bool.
From Stdlib Require Import DecimalString DecimalPos DecimalN.
From stdpp Require Import base option list sorting gmap strings.

Local Open Scope Z_scope.


(** ** Utilities : [_explode_csv] *)

Module Exploder.

(** Character classes of the two compiled patterns.  Python strings are
    sequences of code points; here a string is its byte encoding.  Every
    character outside ASCII is removed by [_csv_keep_digits_commas] whatever
    [_csv_strip_re] did with it, so the byte view loses nothing. *)

Definition code (c : ascii) : N := N_of_ascii c.

(** [\s] on the ASCII range: TAB, LF, VT, FF, CR, FS, GS, RS, US and space. *)
Definition is_space (c : ascii) : bool :=
  let n := code c in
  ((9 <=? n) && (n <=? 13) || (28 <=? n) && (n <=? 32))%N.

(** [_csv_strip_re]: the class of brackets, white space, double quote and
    single quote. *)
Definition _csv_strip_re (c : ascii) : bool :=
  let n := code c in
  ((n =? 91) || (n =? 93) || is_space c || (n =? 34) || (n =? 39))%N.

Definition is_digit (c : ascii) : bool :=
  let n := code c in ((48 <=? n) && (n <=? 57))%N.

Definition is_comma (c : ascii) : bool := (code c =? 44)%N.

(** [_csv_keep_digits_commas]: every character that is neither a decimal
    digit nor a comma. *)
Definition _csv_keep_digits_commas (c : ascii) : bool :=
  negb (is_digit c || is_comma c).

(** [pattern.sub] with the empty replacement, for a one-character class:
    drop every match. *)
Fixpoint re_sub_empty (cls : ascii -> bool) (s : string) : string :=
  match s with
  | EmptyString => EmptyString
  | String c s' =>
      if cls c then re_sub_empty cls s' else String c (re_sub_empty cls s')
  end.

(** [s.split] on the comma: always at least one field, empty fields are
    kept. *)
Fixpoint split_comma (s : string) : list string :=
  match s with
  | EmptyString => [EmptyString]
  | String c s' =>
      if is_comma c then EmptyString :: split_comma s'
      else match split_comma s' with
           | h :: t => String c h :: t
           | [] => [String c EmptyString]
           end
  end.

Fixpoint all_digits (s : string) : bool :=
  match s with
  | EmptyString => true
  | String c s' => is_digit c && all_digits s'
  end.

(** [p.isdigit()]: non-empty and made of digits only. *)
Definition isdigit (p : string) : bool :=
  match p with
  | EmptyString => false
  | _ => all_digits p
  end.

Definition digit_value (c : ascii) : Z := Z.of_N (code c) - 48.

Fixpoint int_acc (acc : Z) (p : string) : Z :=
  match p with
  | EmptyString => acc
  | String c p' => int_acc (10 * acc + digit_value c) p'
  end.

(** [int(p)] on a string of decimal digits (unbounded integers). *)
Definition int (p : string) : Z := int_acc 0 p.

(** The loop over [parts] with its two accumulators [seen] and [out]. *)
Fixpoint dedup_loop (parts : list string) (seen : gset Z) (out : list Z)
  : list Z :=
  match parts with
  | [] => out
  | p :: ps =>
      let i := int p in
      if decide (i ∈ seen) then dedup_loop ps seen out
      else dedup_loop ps ({[i]} ∪ seen) (out ++ [i])
  end.

(** [_explode_csv(value)]; [None] is Python's [None]. *)
Definition _explode_csv (value : option string) : list Z :=
  match value with
  | None => []
  | Some EmptyString => []
  | Some v =>
      let cleaned := re_sub_empty _csv_strip_re v in
      let cleaned := re_sub_empty _csv_keep_digits_commas cleaned in
      let parts := filter (fun p => isdigit p = true) (split_comma cleaned) in
      dedup_loop parts ∅ []
  end.

(** *** The contract in the specification's words

    The integers a raw value encodes: cut the value at its commas, keep the
    digits of each piece, drop the pieces that have none, read the others
    as decimal numbers. *)

Definition digits_of (tok : string) : string :=
  re_sub_empty (fun c => negb (is_digit c)) tok.

Definition encoded_ints (v : string) : list Z :=
  int <$> filter (fun p => p ≠ EmptyString) (digits_of <$> split_comma v).

(** Keep the first occurrence of every element, in order. *)
Fixpoint first_occurrences (l : list Z) : list Z :=
  match l with
  | [] => []
  | x :: l' => x :: filter (fun y => y ≠ x) (first_occurrences l')
  end.

(** The decimal numeral of [n], and a list of ids written the plain way,
    its numerals separated by commas. *)
Definition decimal (n : N) : string :=
  NilEmpty.string_of_uint (N.to_uint n).

Definition render_csv (l : list N) : string :=
  String.concat "," (decimal <$> l).

(** What is left of a raw value once both patterns have been applied. *)
Definition cleaned (v : string) : string :=
  re_sub_empty _csv_keep_digits_commas (re_sub_empty _csv_strip_re v).

End Exploder.

(** ** Utilities : [_loop_ranges] *)

Module Chunks.

(** The generator's [while] loop.  Each iteration spends one unit of fuel;
    [None] means the fuel ran out before the loop condition failed. *)
Fixpoint loop_ranges_from (fuel : nat) (a end_id step : Z)
  : option (list (Z * Z)) :=
  if decide (a <= end_id) then
    match fuel with
    | O => None
    | S fuel' =>
        let b := Z.min (a + step - 1) end_id in
        cons (a, b) <$> loop_ranges_from fuel' (b + 1) end_id step
    end
  else Some [].

(** For [step >= 1] the loop body runs at most [end_id - start_id + 1] times. *)
Definition _loop_ranges (start_id end_id step : Z) : option (list (Z * Z)) :=
  loop_ranges_from (Z.to_nat (end_id - start_id + 1)) start_id end_id step.

(** The ids of an inclusive range. *)
Definition range_ids (r : Z * Z) : list Z := seqZ r.1 (r.2 - r.1 + 1).

Definition width (r : Z * Z) : Z := r.2 - r.1 + 1.

(** Consecutive ranges: each one is non-empty and the next starts right
    after it; the last one ends at [e]. *)
Fixpoint tiles (a : Z) (l : list (Z * Z)) (e : Z) : Prop :=
  match l with
  | [] => a = e + 1
  | r :: l' => r.1 = a ∧ a <= r.2 ∧ r.2 <= e ∧ tiles (r.2 + 1) l' e
  end.

End Chunks.

(** ** The relational store *)

Module Sql.

(** A DATETIME value, in seconds counted from 1970-01-01 00:00:00; a
    nullable column is an [option]. *)
Definition datetime := Z.

(** The literal 1970-01-01 of the summary statement. *)
Definition epoch : datetime := 0.

(** *** Source tables (owned by the catalog, only read here) *)

(** A row of [materials], keyed by its primary key [id]. *)
Record material := {
  title : option string;
  material_brand_id : option Z;
  material_brand_style_id : option Z;
  material_category_id : option Z;
  modified : option datetime
}.

(** A row of [tmp_project_elevations] or [project_views]. *)
Record list_row := {
  lr_id : Z;
  lr_modified : option datetime;
  existing_material_ids : option string
}.

(** A row of [job_area_materials]. *)
Record jam_row := {
  jam_id : Z;
  material_option_id : option Z;
  updated : option datetime
}.

Record sources := {
  materials : gmap Z material;
  (** [title] of the brand, style and category lookup tables, by [id] *)
  material_brands : gmap Z (option string);
  material_brand_styles : gmap Z (option string);
  material_categories : gmap Z (option string);
  tmp_project_elevations : list list_row;
  (** [None]: [project_views] has no column [existing_material_ids] *)
  project_views : option (list list_row);
  job_area_materials : list jam_row;
  (** [material_options.material_id] by [material_options.id] *)
  material_options : gmap Z (option Z)
}.

(** *** Helper tables (owned by the engine) *)

(** A row of [van_tpe_materials_extracted] / [van_pv_materials_extracted]. *)
Record edge := {
  source_id : Z;       (* elevation_id / project_view_id *)
  material_id : Z;
  e_modified : option datetime
}.

(** A row of [van_jobareas_mat], [van_elev_mat], [van_pv_mat]; the primary
    key [material_id] is the key of the map that holds the row. *)
Record agg := { cnt : Z; last_dt : option datetime }.

(** A row of [van_material_usage_summary], by [material_id]. *)
Record usage := {
  used_job_areas : Z;
  used_elevations : Z;
  used_project_views : Z;
  total_uses : Z;
  last_used : option datetime
}.

(** A row of [van_unused_materials], by [material_id]. *)
Record unused := {
  u_last_used : option datetime;
  snapshot_at : datetime;
  reason_all_unused : bool
}.

(** A row of [van_duplicate_materials]. *)
Record dup := {
  key_type : string;
  group_hash : string;
  group_size : Z;
  d_material_id : Z;
  d_snapshot_at : datetime
}.

(** Every helper table is [None] until its CREATE TABLE has run. *)
Record helpers := {
  van_tpe_materials_extracted : option (list edge);
  van_pv_materials_extracted : option (list edge);
  van_jobareas_mat : option (gmap Z agg);
  van_elev_mat : option (gmap Z agg);
  van_pv_mat : option (gmap Z agg);
  van_material_usage_summary : option (gmap Z usage);
  van_unused_materials : option (gmap Z unused);
  van_duplicate_materials : option (list dup)
}.

(** One probe of INFORMATION_SCHEMA.COLUMNS: table, column, answer. *)
Record probe := { p_table : string; p_column : string; p_found : bool }.

(** The state an engine handle gives access to. *)
Record world := {
  src : sources;
  van : helpers;
  (** every schema probe issued so far, oldest first *)
  probes : list probe;
  (** [clock n] is the value of NOW() in the [n]-th statement that calls it *)
  clock : nat -> datetime;
  now_calls : nat
}.

Definition with_van (f : helpers -> helpers) (w : world) : world :=
  {| src := src w; van := f (van w); probes := probes w;
     clock := clock w; now_calls := now_calls w |}.

(** *** Handles on the helper tables *)

Record table (T : Type) := {
  tname : string;
  tcolumns : list string;
  tget : helpers -> option T;
  tset : option T -> helpers -> helpers
}.
Arguments tname {T}.
Arguments tcolumns {T}.
Arguments tget {T}.
Arguments tset {T}.

Definition T_tpe_extracted : table (list edge) := {|
  tname := "van_tpe_materials_extracted";
  tcolumns := ["elevation_id"; "material_id"; "modified"];
  tget := van_tpe_materials_extracted;
  tset v h := {|
    van_tpe_materials_extracted := v;
    van_pv_materials_extracted := van_pv_materials_extracted h;
    van_jobareas_mat := van_jobareas_mat h;
    van_elev_mat := van_elev_mat h;
    van_pv_mat := van_pv_mat h;
    van_material_usage_summary := van_material_usage_summary h;
    van_unused_materials := van_unused_materials h;
    van_duplicate_materials := van_duplicate_materials h |} |}.

Definition T_pv_extracted : table (list edge) := {|
  tname := "van_pv_materials_extracted";
  tcolumns := ["project_view_id"; "material_id"; "modified"];
  tget := van_pv_materials_extracted;
  tset v h := {|
    van_tpe_materials_extracted := van_tpe_materials_extracted h;
    van_pv_materials_extracted := v;
    van_jobareas_mat := van_jobareas_mat h;
    van_elev_mat := van_elev_mat h;
    van_pv_mat := van_pv_mat h;
    van_material_usage_summary := van_material_usage_summary h;
    van_unused_materials := van_unused_materials h;
    van_duplicate_materials := van_duplicate_materials h |} |}.

Definition agg_columns : list string := ["material_id"; "cnt"; "last_dt"].

Definition T_jobareas_mat : table (gmap Z agg) := {|
  tname := "van_jobareas_mat";
  tcolumns := agg_columns;
  tget := van_jobareas_mat;
  tset v h := {|
    van_tpe_materials_extracted := van_tpe_materials_extracted h;
    van_pv_materials_extracted := van_pv_materials_extracted h;
    van_jobareas_mat := v;
    van_elev_mat := van_elev_mat h;
    van_pv_mat := van_pv_mat h;
    van_material_usage_summary := van_material_usage_summary h;
    van_unused_materials := van_unused_materials h;
    van_duplicate_materials := van_duplicate_materials h |} |}.

Definition T_elev_mat : table (gmap Z agg) := {|
  tname := "van_elev_mat";
  tcolumns := agg_columns;
  tget := van_elev_mat;
  tset v h := {|
    van_tpe_materials_extracted := van_tpe_materials_extracted h;
    van_pv_materials_extracted := van_pv_materials_extracted h;
    van_jobareas_mat := van_jobareas_mat h;
    van_elev_mat := v;
    van_pv_mat := van_pv_mat h;
    van_material_usage_summary := van_material_usage_summary h;
    van_unused_materials := van_unused_materials h;
    van_duplicate_materials := van_duplicate_materials h |} |}.

Definition T_pv_mat : table (gmap Z agg) := {|
  tname := "van_pv_mat";
  tcolumns := agg_columns;
  tget := van_pv_mat;
  tset v h := {|
    van_tpe_materials_extracted := van_tpe_materials_extracted h;
    van_pv_materials_extracted := van_pv_materials_extracted h;
    van_jobareas_mat := van_jobareas_mat h;
    van_elev_mat := van_elev_mat h;
    van_pv_mat := v;
    van_material_usage_summary := van_material_usage_summary h;
    van_unused_materials := van_unused_materials h;
    van_duplicate_materials := van_duplicate_materials h |} |}.

Definition T_usage_summary : table (gmap Z usage) := {|
  tname := "van_material_usage_summary";
  tcolumns := ["material_id"; "used_job_areas"; "used_elevations";
               "used_project_views"; "total_uses"; "last_used"];
  tget := van_material_usage_summary;
  tset v h := {|
    van_tpe_materials_extracted := van_tpe_materials_extracted h;
    van_pv_materials_extracted := van_pv_materials_extracted h;
    van_jobareas_mat := van_jobareas_mat h;
    van_elev_mat := van_elev_mat h;
    van_pv_mat := van_pv_mat h;
    van_material_usage_summary := v;
    van_unused_materials := van_unused_materials h;
    van_duplicate_materials := van_duplicate_materials h |} |}.

Definition T_unused : table (gmap Z unused) := {|
  tname := "van_unused_materials";
  tcolumns := ["material_id"; "last_used"; "snapshot_at"; "reason_all_unused"];
  tget := van_unused_materials;
  tset v h := {|
    van_tpe_materials_extracted := van_tpe_materials_extracted h;
    van_pv_materials_extracted := van_pv_materials_extracted h;
    van_jobareas_mat := van_jobareas_mat h;
    van_elev_mat := van_elev_mat h;
    van_pv_mat := van_pv_mat h;
    van_material_usage_summary := van_material_usage_summary h;
    van_unused_materials := v;
    van_duplicate_materials := van_duplicate_materials h |} |}.

Definition T_duplicates : table (list dup) := {|
  tname := "van_duplicate_materials";
  tcolumns := ["key_type"; "group_hash"; "group_size"; "material_id";
               "snapshot_at"];
  tget := van_duplicate_materials;
  tset v h := {|
    van_tpe_materials_extracted := van_tpe_materials_extracted h;
    van_pv_materials_extracted := van_pv_materials_extracted h;
    van_jobareas_mat := van_jobareas_mat h;
    van_elev_mat := van_elev_mat h;
    van_pv_mat := van_pv_mat h;
    van_material_usage_summary := van_material_usage_summary h;
    van_unused_materials := van_unused_materials h;
    van_duplicate_materials := v |} |}.

(** What makes [tget] and [tset] the two sides of one field. *)
Class TableLaws {T} (tb : table T) := {
  get_set v h : tget tb (tset tb v h) = v;
  set_set v v' h : tset tb v (tset tb v' h) = tset tb v h;
  set_get h : tset tb (tget tb h) h = h
}.

(** *** Statements: a state and error monad over [world] *)

Inductive error :=
  | NoSuchTable (t : string)        (* ER_NO_SUCH_TABLE *)
  | UnknownColumn (c : string)      (* ER_BAD_FIELD_ERROR *)
  | DuplicateEntry (t : string)     (* ER_DUP_ENTRY *)
  | NeverReturns.                   (* the chunk loop does not end *)

Inductive result (A : Type) :=
  | Ok (a : A)
  | Err (e : error).
Arguments Ok {A}.
Arguments Err {A}.

Definition M (A : Type) : Type := world -> result (A * world).

Definition ret {A} (a : A) : M A := fun w => Ok (a, w).

Definition bind {A B} (m : M A) (f : A -> M B) : M B :=
  fun w => match m w with
           | Ok (a, w') => f a w'
           | Err e => Err e
           end.

Definition raise {A} (e : error) : M A := fun _ => Err e.

(** stdpp's notations [x ← m; k] and [m;; k] for this monad. *)
#[export] Instance M_ret : MRet M := @ret.
#[export] Instance M_bind : MBind M := fun A B f m => bind m f.

(** [for x in l: body(x)] *)
Fixpoint for_each {A} (l : list A) (body : A -> M unit) : M unit :=
  match l with
  | [] => ret tt
  | x :: l' => body x;; for_each l' body
  end.

(** A loop that also carries local variables [s] from pass to pass. *)
Fixpoint for_fold {A S} (l : list A) (body : A -> S -> M S) (s : S) : M S :=
  match l with
  | [] => ret s
  | x :: l' => s' ← body x s; for_fold l' body s'
  end.

(** [if b: m] *)
Definition when (b : bool) (m : M unit) : M unit :=
  if b then m else ret tt.

(** A read-only query over the source tables. *)
Definition query {A} (q : sources -> A) : M A := fun w => Ok (q (src w), w).

(** SELECT over a helper table. *)
Definition select_from {T} (tb : table T) : M T :=
  fun w => match tget tb (van w) with
           | Some t => Ok (t, w)
           | None => Err (NoSuchTable (tname tb))
           end.

(** CREATE TABLE IF NOT EXISTS [tb], born empty. *)
Definition create_table_if_not_exists {T} (tb : table T) (empty : T)
  : M unit :=
  fun w => Ok (tt, with_van (fun h => tset tb (Some (default empty (tget tb h))) h) w).

(** TRUNCATE TABLE [tb] *)
Definition truncate_table {T} (tb : table T) (empty : T) : M unit :=
  fun w => match tget tb (van w) with
           | Some _ => Ok (tt, with_van (tset tb (Some empty)) w)
           | None => Err (NoSuchTable (tname tb))
           end.

(** INSERT of [rows] into a table without a key: appended. *)
Definition insert_rows {R} (tb : table (list R)) (rows : list R) : M unit :=
  fun w => match tget tb (van w) with
           | Some t => Ok (tt, with_van (tset tb (Some (t ++ rows))) w)
           | None => Err (NoSuchTable (tname tb))
           end.

(** INSERT of [rows] into a table with primary key [material_id]. *)
Definition insert_keyed {R} (tb : table (gmap Z R)) (rows : gmap Z R)
  : M unit :=
  fun w => match tget tb (van w) with
           | Some t =>
               if decide (rows ##ₘ t)
               then Ok (tt, with_van (tset tb (Some (rows ∪ t))) w)
               else Err (DuplicateEntry (tname tb))
           | None => Err (NoSuchTable (tname tb))
           end.

(** NOW(), once per statement that mentions it. *)
Definition NOW : M datetime :=
  fun w => Ok (clock w (now_calls w),
               {| src := src w; van := van w; probes := probes w;
                  clock := clock w; now_calls := S (now_calls w) |}).

(** MAX over a nullable column: NULLs are skipped. *)
Definition sql_max (a b : option datetime) : option datetime :=
  match a, b with
  | Some x, Some y => Some (Z.max x y)
  | Some x, None => Some x
  | None, _ => b
  end.

(** GREATEST: NULL as soon as one argument is NULL. *)
Definition GREATEST (a b c d : option datetime) : option datetime :=
  match a, b, c, d with
  | Some a, Some b, Some c, Some d => Some (Z.max (Z.max (Z.max a b) c) d)
  | _, _, _, _ => None
  end.

Definition COALESCE {A} (a : option A) (d : A) : A := default d a.

(** SELECT material_id, COUNT( * ), MAX(modified) ... GROUP BY material_id *)
Definition group_step (acc : gmap Z agg) (e : edge) : gmap Z agg :=
  match acc !! material_id e with
  | None => <[material_id e := {| cnt := 1; last_dt := e_modified e |}]> acc
  | Some g =>
      <[material_id e := {| cnt := cnt g + 1;
                           last_dt := sql_max (last_dt g) (e_modified e) |}]> acc
  end.

Definition group_by_material_id (l : list edge) : gmap Z agg :=
  foldl group_step ∅ l.

(** The functions of the server that stay abstract. *)
Class SqlFunctions := {
  MD5 : string -> string;
  LOWER : string -> string
}.

End Sql.

(** ** The aggregation module *)

Module Aggregator.
Import Exploder Chunks Sql.

(** *** Utilities *)

(** INFORMATION_SCHEMA.COLUMNS restricted to the tables and columns this
    module names: the helper tables that exist, with the columns of their
    CREATE TABLE, and the source tables. *)
Definition helper_columns {T} (tb : table T) (h : helpers)
  : list (string * list string) :=
  match tget tb h with
  | Some _ => [(tname tb, tcolumns tb)]
  | None => []
  end.

Definition information_schema (w : world) : list (string * list string) :=
  [ ("materials", ["id"; "title"; "material_brand_id";
                   "material_brand_style_id"; "material_category_id";
                   "modified"]);
    ("material_brands", ["id"; "title"]);
    ("material_brand_styles", ["id"; "title"]);
    ("material_categories", ["id"; "title"]);
    ("tmp_project_elevations", ["id"; "modified"; "existing_material_ids"]);
    ("project_views",
      match project_views (src w) with
      | Some _ => ["id"; "modified"; "existing_material_ids"]
      | None => ["id"; "modified"]
      end);
    ("job_area_materials", ["id"; "material_option_id"; "updated"]);
    ("material_options", ["id"; "material_id"]) ]
  ++ helper_columns T_tpe_extracted (van w)
  ++ helper_columns T_pv_extracted (van w)
  ++ helper_columns T_jobareas_mat (van w)
  ++ helper_columns T_elev_mat (van w)
  ++ helper_columns T_pv_mat (van w)
  ++ helper_columns T_usage_summary (van w)
  ++ helper_columns T_unused (van w)
  ++ helper_columns T_duplicates (van w).

Definition count_columns (w : world) (t c : string) : nat :=
  length (filter (fun tc => tc.1 = t ∧ c ∈ tc.2) (information_schema w)).

(** [_col_exists(engine, table, column)]; the probe is recorded. *)
Definition _col_exists (t c : string) : M bool :=
  fun w =>
    let found := bool_decide (0 < count_columns w t c)%nat in
    Ok (found,
        {| src := src w; van := van w;
           probes := probes w ++ [{| p_table := t; p_column := c;
                                     p_found := found |}];
           clock := clock w; now_calls := now_calls w |}).

(** [_ensure_tables(engine, has_pv)] *)
Definition _ensure_tables (has_pv : bool) : M unit :=
  let pv_extracted :=
    if has_pv then [create_table_if_not_exists T_pv_extracted []]
    else [] in
  let pv_mat :=
    if has_pv then [create_table_if_not_exists T_pv_mat ∅] else [] in
  let stmts :=
    [create_table_if_not_exists T_tpe_extracted []]
    ++ pv_extracted ++
    [create_table_if_not_exists T_jobareas_mat ∅;
     create_table_if_not_exists T_elev_mat ∅]
    ++ pv_mat ++
    [create_table_if_not_exists T_usage_summary ∅;
     create_table_if_not_exists T_unused ∅;
     create_table_if_not_exists T_duplicates []] in
  for_each stmts (fun s => s).

(** *** Extract + aggregate builders *)

(** WHERE existing_material_ids IS NOT NULL AND existing_material_ids <> '' *)
Definition populated (r : list_row) : Prop :=
  match existing_material_ids r with
  | None => False
  | Some s => s ≠ EmptyString
  end.

#[export] Instance populated_dec r : Decision (populated r).
Proof. unfold populated. destruct (existing_material_ids r); apply _. Defined.

Definition list_min (l : list Z) : option Z :=
  match l with
  | [] => None
  | x :: l' => Some (foldl Z.min x l')
  end.

Definition list_max (l : list Z) : option Z :=
  match l with
  | [] => None
  | x :: l' => Some (foldl Z.max x l')
  end.

(** SELECT MIN(id), MAX(id) over [ids]: a pair of NULLs on no row. *)
Definition select_min_max (ids : list Z) : option Z * option Z :=
  (list_min ids, list_max ids).

(** WHERE id BETWEEN :a AND :b *)
Definition between (a b x : Z) : Prop := a <= x ∧ x <= b.

(** The rows of one chunk of a list-bearing table. *)
Definition select_chunk (rows : list list_row) (a b : Z) : list list_row :=
  filter (fun r => between a b (lr_id r) ∧ populated r) rows.

(** The inner loops over the cursor and over the exploded ids. *)
Definition explode_row (r : list_row) : list edge :=
  (fun mid => {| source_id := lr_id r; material_id := mid;
                 e_modified := lr_modified r |})
    <$> _explode_csv (existing_material_ids r).

Definition explode_rows (cur : list list_row) : list edge :=
  cur ≫= explode_row.

(** [for a, b in _loop_ranges(mi, ma, step_rows)]: a generator that never
    ends keeps the caller in its loop. *)
Definition for_ranges (mi ma step_rows : Z) (body : Z * Z -> M unit)
  : M unit :=
  match _loop_ranges mi ma step_rows with
  | Some chunks => for_each chunks body
  | None => raise NeverReturns
  end.

(** The body of the loop over the chunks: read the chunk, explode it,
    insert the edges if there are any. *)
Definition extract_chunk (table_rows : sources -> list list_row)
    (target : table (list edge)) (r : Z * Z) : M unit :=
  let '(a, b) := r in
  cur ← query (fun s => select_chunk (table_rows s) a b);
  let rows := explode_rows cur in
  match rows with
  | [] => mret tt
  | _ => insert_rows target rows
  end.

(** The chunked scan of one list-bearing source into its edge table. *)
Definition extract_source (table_rows : sources -> list list_row)
    (target : table (list edge)) (step_rows : Z) : M unit :=
  minmax ← query (fun s =>
    select_min_max (lr_id <$> filter populated (table_rows s)));
  match minmax with
  | (Some mi, Some ma) =>
      for_ranges mi ma step_rows (extract_chunk table_rows target)
  | _ => mret tt
  end.

(** [refresh_extracted_tables(engine, step_rows)] *)
Definition refresh_extracted_tables (step_rows : Z) : M unit :=
  has_pv ← _col_exists "project_views" "existing_material_ids";
  _ensure_tables has_pv;;
  (* clear extracted tables *)
  truncate_table T_tpe_extracted [];;
  when has_pv (truncate_table T_pv_extracted []);;
  (* tmp_project_elevations *)
  extract_source tmp_project_elevations T_tpe_extracted step_rows;;
  (* project_views (optional) *)
  when has_pv
    (extract_source (fun s => default [] (project_views s))
                    T_pv_extracted step_rows).

(** The locals [counts] and [last_dt] of [_agg_job_areas]. *)
Record jam_acc := { counts : gmap Z Z; last_dts : gmap Z datetime }.

(** SELECT jam.id, mo.material_id, jam.updated FROM job_area_materials jam
    JOIN material_options mo ON mo.id = jam.material_option_id
    WHERE jam.id BETWEEN :a AND :b AND mo.material_id IS NOT NULL *)
Definition select_jam_chunk (s : sources) (a b : Z)
  : list (Z * Z * option datetime) :=
  omap (fun r =>
    if decide (between a b (jam_id r)) then
      oid ← material_option_id r;
      mo ← material_options s !! oid;
      mid ← mo;
      Some (jam_id r, mid, updated r)
    else None) (job_area_materials s).

(** The body of [for r in cur]. *)
Definition jam_step (acc : jam_acc) (r : Z * Z * option datetime) : jam_acc :=
  let mid := r.1.2 in
  let counts' := <[mid := default 0 (counts acc !! mid) + 1]> (counts acc) in
  match r.2 with
  | Some dt =>
      match last_dts acc !! mid with
      | None => {| counts := counts'; last_dts := <[mid := dt]> (last_dts acc) |}
      | Some prev =>
          if decide (prev < dt)
          then {| counts := counts'; last_dts := <[mid := dt]> (last_dts acc) |}
          else {| counts := counts'; last_dts := last_dts acc |}
      end
  | None => {| counts := counts'; last_dts := last_dts acc |}
  end.

(** The rows built from [counts.items()]. *)
Definition jam_rows (acc : jam_acc) : gmap Z agg :=
  map_imap (fun mid c => Some {| cnt := c; last_dt := last_dts acc !! mid |})
           (counts acc).

(** The body of the loop over the chunks. *)
Definition jam_chunk (r : Z * Z) (acc : jam_acc) : M jam_acc :=
  let '(a, b) := r in
  cur ← query (fun s => select_jam_chunk s a b);
  mret (foldl jam_step acc cur).

(** [_agg_job_areas(engine, step_rows)] *)
Definition _agg_job_areas (step_rows : Z) : M unit :=
  mm ← query (fun s => select_min_max (jam_id <$> job_area_materials s));
  match mm with
  | (Some mi, Some ma) =>
      match _loop_ranges mi ma step_rows with
      | None => raise NeverReturns
      | Some chunks =>
          acc ← for_fold chunks jam_chunk {| counts := ∅; last_dts := ∅ |};
          let rows := jam_rows acc in
          truncate_table T_jobareas_mat ∅;;
          if decide (rows = ∅) then mret tt
          else insert_keyed T_jobareas_mat rows
      end
  | _ => truncate_table T_jobareas_mat ∅
  end.

(** What the FROM clause binds to an alias: the columns the alias offers
    and, for a material id, the row the ON condition pairs with it. *)
Record joined := {
  j_columns : list string;
  j_row : Z -> option agg
}.

(** [LEFT JOIN t alias ON alias.material_id = m.id] *)
Definition join_table (t : gmap Z agg) : joined :=
  {| j_columns := agg_columns; j_row := fun id => t !! id |}.

(** [LEFT JOIN (SELECT NULL) p ON 1=0]: one column, named NULL, and no
    material is ever paired with its row. *)
Definition join_select_null : joined :=
  {| j_columns := ["NULL"]; j_row := fun _ => None |}.

(** Name resolution of [alias.col]. *)
Definition resolve (alias : string) (j : joined) (col : string) : M unit :=
  if decide (col ∈ j_columns j) then mret tt
  else raise (UnknownColumn (alias +:+ "." +:+ col)).

(** One row of the SELECT of the summary statement. *)
Definition summary_row (j e p : joined) (id : Z) (m : material) : usage :=
  let j_cnt := cnt <$> j_row j id in
  let e_cnt := cnt <$> j_row e id in
  let p_cnt := cnt <$> j_row p id in
  {| used_job_areas := COALESCE j_cnt 0;
     used_elevations := COALESCE e_cnt 0;
     used_project_views := COALESCE p_cnt 0;
     total_uses := COALESCE j_cnt 0 + COALESCE e_cnt 0 + COALESCE p_cnt 0;
     last_used :=
       GREATEST (Some (COALESCE (j_row j id ≫= last_dt) epoch))
                (Some (COALESCE (j_row e id ≫= last_dt) epoch))
                (Some (COALESCE (j_row p id ≫= last_dt) epoch))
                (modified m) |}.

(** INSERT INTO van_material_usage_summary ... SELECT ... FROM materials m
    LEFT JOIN van_jobareas_mat j ... LEFT JOIN van_elev_mat e ... LEFT JOIN p *)
Definition insert_usage_summary (pv_mat_exists : bool) : M unit :=
  mats ← query materials;
  j ← select_from T_jobareas_mat;
  e ← select_from T_elev_mat;
  p ← (if pv_mat_exists then t ← select_from T_pv_mat; mret (join_table t)
       else mret join_select_null);
  resolve "p" p "cnt";;
  resolve "p" p "last_dt";;
  insert_keyed T_usage_summary
    (map_imap (fun id m => Some (summary_row (join_table j) (join_table e) p id m))
              mats).

(** INSERT INTO van_unused_materials ... WHERE mus.total_uses = 0 *)
Definition insert_unused : M unit :=
  mus ← select_from T_usage_summary;
  now ← NOW;
  insert_keyed T_unused
    ((fun r => {| u_last_used := last_used r; snapshot_at := now;
                  reason_all_unused := true |})
       <$> filter (fun kr => total_uses kr.2 = 0) mus).

(** [rebuild_usage_summary(engine)] *)
Definition rebuild_usage_summary : M unit :=
  has_pv ← _col_exists "project_views" "existing_material_ids";
  _ensure_tables has_pv;;
  (* 1) job areas (client-side) *)
  _agg_job_areas 5000;;
  (* 2) elev & (optional) pv aggregates *)
  truncate_table T_elev_mat ∅;;
  tpe ← select_from T_tpe_extracted;
  insert_keyed T_elev_mat (group_by_material_id tpe);;
  when has_pv
    (truncate_table T_pv_mat ∅;;
     pv ← select_from T_pv_extracted;
     insert_keyed T_pv_mat (group_by_material_id pv));;
  (* 3) usage summary *)
  truncate_table T_usage_summary ∅;;
  pv_mat_exists ← _col_exists "van_pv_mat" "material_id";
  insert_usage_summary pv_mat_exists;;
  (* 4) unused snapshot *)
  truncate_table T_unused ∅;;
  insert_unused.

(** *** Duplicate groups *)

(** TRIM: leading and trailing spaces. *)
Fixpoint ltrim (s : string) : string :=
  match s with
  | String c s' => if (code c =? 32)%N then ltrim s' else s
  | EmptyString => EmptyString
  end.

Definition TRIM (s : string) : string :=
  String.rev (ltrim (String.rev (ltrim s))).

(** CONCAT_WS: NULL arguments after the separator are skipped. *)
Definition CONCAT_WS (sep : string) (args : list (option string)) : string :=
  String.concat sep (omap id args).

(** A row of [base_join]: the material and the titles its three LEFT JOINs
    bring (NULL when the join finds no row). *)
Record base_row := {
  m : material;
  mb_title : option string;
  mbs_title : option string;
  mc_title : option string
}.

Definition base_join (s : sources) (mat : material) : base_row :=
  {| m := mat;
     mb_title := b ← material_brand_id mat; t ← material_brands s !! b; t;
     mbs_title := b ← material_brand_style_id mat;
                  t ← material_brand_styles s !! b; t;
     mc_title := b ← material_category_id mat;
                 t ← material_categories s !! b; t |}.

Section duplicates.
Context `{SqlFunctions}.

(** LOWER(TRIM(x)) *)
Definition lower_trim (x : option string) : option string :=
  LOWER <$> (TRIM <$> x).

(** LOWER(TRIM(COALESCE(x,''))) *)
Definition lower_trim_coalesce (x : option string) : option string :=
  Some (LOWER (TRIM (COALESCE x EmptyString))).

(** The four key expressions of [rebuild_duplicates]. *)
Definition expr_title (r : base_row) : option string :=
  lower_trim (title (m r)).

Definition expr_title_brand (r : base_row) : option string :=
  Some (CONCAT_WS "|" [lower_trim (title (m r));
                       lower_trim_coalesce (mb_title r)]).

Definition expr_title_brand_style (r : base_row) : option string :=
  Some (CONCAT_WS "|" [lower_trim (title (m r));
                       lower_trim_coalesce (mb_title r);
                       lower_trim_coalesce (mbs_title r)]).

Definition expr_title_brand_style_category (r : base_row) : option string :=
  Some (CONCAT_WS "|" [lower_trim (title (m r));
                       lower_trim_coalesce (mb_title r);
                       lower_trim_coalesce (mbs_title r);
                       lower_trim_coalesce (mc_title r)]).

(** SELECT m.id, MD5(expr) AS gh FROM base_join *)
Definition dup_keys (expr_sql : base_row -> option string) (s : sources)
  : list (Z * option string) :=
  (fun im => (im.1, MD5 <$> expr_sql (base_join s im.2)))
    <$> map_to_list (materials s).

(** SELECT MD5(expr) AS gh, COUNT( * ) AS gs ... GROUP BY gh
    HAVING COUNT( * ) > 1; NULL keys form one group. *)
Definition dup_groups (keys : list (Z * option string))
  : list (option string * Z) :=
  filter (fun g => 1 < g.2)
    ((fun h => (h, Z.of_nat (length (filter (fun k => k.2 = h) keys))))
       <$> remove_dups (keys.*2)).

(** gh JOIN m2 ON m2.gh = gh.gh: a NULL hash equals nothing. *)
Definition dup_select (kt : string) (expr_sql : base_row -> option string)
    (now : datetime) (s : sources) : list dup :=
  let keys := dup_keys expr_sql s in
  dup_groups keys ≫= fun g =>
    match g.1 with
    | None => []
    | Some h =>
        (fun k => {| key_type := kt; group_hash := h; group_size := g.2;
                     d_material_id := k.1; d_snapshot_at := now |})
          <$> filter (fun k => k.2 = Some h) keys
    end.

(** [_dup_insert(engine, key_type, expr_sql)] *)
Definition _dup_insert (kt : string) (expr_sql : base_row -> option string)
  : M unit :=
  now ← NOW;
  rows ← query (dup_select kt expr_sql now);
  insert_rows T_duplicates rows.

(** [rebuild_duplicates(engine)] *)
Definition rebuild_duplicates : M unit :=
  truncate_table T_duplicates [];;
  _dup_insert "title" expr_title;;
  _dup_insert "title_brand" expr_title_brand;;
  _dup_insert "title_brand_style" expr_title_brand_style;;
  _dup_insert "title_brand_style_category" expr_title_brand_style_category.

(** *** High level entrypoint *)

(** [rebuild_all(engine)] *)
Definition rebuild_all : M unit :=
  has_pv ← _col_exists "project_views" "existing_material_ids";
  _ensure_tables has_pv;;
  refresh_extracted_tables 5000;;
  rebuild_usage_summary;;
  rebuild_duplicates.

End duplicates.

(** The value of one entry of the dictionary [get_material_usage_stats]
    returns. *)
Record stats := {
  job_areas : Z;
  elevations : Z;
  s_project_views : Z;
  total : Z;
  s_last_used : option datetime
}.

Definition stats_of (r : usage) : stats :=
  {| job_areas := used_job_areas r; elevations := used_elevations r;
     s_project_views := used_project_views r; total := total_uses r;
     s_last_used := last_used r |}.

(** Truth value of [material_ids]: [None] and the empty list are false. *)
Definition truthy (material_ids : option (list Z)) : bool :=
  match material_ids with
  | Some (_ :: _) => true
  | _ => false
  end.

(** [get_material_usage_stats(engine, material_ids)] *)
Definition get_material_usage_stats (material_ids : option (list Z))
  : M (gmap Z stats) :=
  let where_clause : option (list Z) :=
    if truthy material_ids then material_ids else None in
  mus ← select_from T_usage_summary;
  let result :=
    match where_clause with
    | Some ids => filter (fun kr => kr.1 ∈ ids) mus
    | None => mus
    end in
  mret (stats_of <$> result).

End Aggregator.

(** ** What a run leaves behind

    The state each stage ends in, written as a function of the state it
    starts from; the properties below are read off these. *)

Module Outcome.
Import Exploder Chunks Sql Aggregator.

(** The helper tables after [_ensure_tables]. *)
Definition ensure (has_pv : bool) (h : helpers) : helpers := {|
  van_tpe_materials_extracted :=
    Some (default [] (van_tpe_materials_extracted h));
  van_pv_materials_extracted :=
    if has_pv then Some (default [] (van_pv_materials_extracted h))
    else van_pv_materials_extracted h;
  van_jobareas_mat := Some (default ∅ (van_jobareas_mat h));
  van_elev_mat := Some (default ∅ (van_elev_mat h));
  van_pv_mat :=
    if has_pv then Some (default ∅ (van_pv_mat h)) else van_pv_mat h;
  van_material_usage_summary :=
    Some (default ∅ (van_material_usage_summary h));
  van_unused_materials := Some (default ∅ (van_unused_materials h));
  van_duplicate_materials := Some (default [] (van_duplicate_materials h)) |}.

Definition has_pv_column (s : sources) : bool :=
  bool_decide (is_Some (project_views s)).

Definition pv_probe (s : sources) : probe :=
  {| p_table := "project_views"; p_column := "existing_material_ids";
     p_found := has_pv_column s |}.

(** The edges one chunk contributes. *)
Definition chunk_edges (rows : list list_row) (r : Z * Z) : list edge :=
  explode_rows (select_chunk rows r.1 r.2).

(** The edges a chunked scan of [rows] inserts, in insertion order. *)
Definition edges_of (rows : list list_row) (step_rows : Z) : list edge :=
  match select_min_max (lr_id <$> filter populated rows) with
  | (Some mi, Some ma) =>
      default [] (_loop_ranges mi ma step_rows) ≫= chunk_edges rows
  | _ => []
  end.

(** The content of [van_jobareas_mat] after [_agg_job_areas]. *)
Definition job_areas_of (s : sources) (step_rows : Z) : gmap Z agg :=
  match select_min_max (jam_id <$> job_area_materials s) with
  | (Some mi, Some ma) =>
      jam_rows
        (foldl (λ acc r, foldl jam_step acc (select_jam_chunk s r.1 r.2))
               {| counts := ∅; last_dts := ∅ |}
               (default [] (_loop_ranges mi ma step_rows)))
  | _ => ∅
  end.

(** The rows of the usage summary, from the three aggregates. *)
Definition summary_of (s : sources) (j e p : gmap Z agg) : gmap Z usage :=
  map_imap (λ id m, Some (summary_row (join_table j) (join_table e)
                                      (join_table p) id m))
           (materials s).

(** The rows of the unused snapshot taken at [now]. *)
Definition unused_of (mus : gmap Z usage) (now : datetime) : gmap Z unused :=
  (λ r, {| u_last_used := last_used r; snapshot_at := now;
           reason_all_unused := true |})
    <$> filter (λ kr, total_uses kr.2 = 0) mus.

(** The project-view aggregate the summary statement joins: rebuilt from
    the edge table when the column exists, whatever table was there
    otherwise. *)
Definition pv_mat_after (s : sources) (h : helpers) : option (gmap Z agg) :=
  if has_pv_column s
  then Some (group_by_material_id (default [] (van_pv_materials_extracted h)))
  else van_pv_mat h.

(** The state [rebuild_usage_summary] ends in. *)
Definition usage_summary_outcome (w : world) : result (unit * world) :=
  let s := src w in
  let h := van w in
  let j := job_areas_of s 5000 in
  let e := group_by_material_id (default [] (van_tpe_materials_extracted h)) in
  match pv_mat_after s h with
  | None => Err (UnknownColumn "p.cnt")
  | Some p =>
      let mus := summary_of s j e p in
      Ok (tt,
          {| src := s;
             van := {|
               van_tpe_materials_extracted :=
                 Some (default [] (van_tpe_materials_extracted h));
               van_pv_materials_extracted :=
                 van_pv_materials_extracted (ensure (has_pv_column s) h);
               van_jobareas_mat := Some j;
               van_elev_mat := Some e;
               van_pv_mat := Some p;
               van_material_usage_summary := Some mus;
               van_unused_materials :=
                 Some (unused_of mus (clock w (now_calls w)));
               van_duplicate_materials :=
                 Some (default [] (van_duplicate_materials h)) |};
             probes := probes w ++
               [pv_probe s;
                {| p_table := "van_pv_mat"; p_column := "material_id";
                   p_found := true |}];
             clock := clock w;
             now_calls := S (now_calls w) |})
  end.

(** The state [refresh_extracted_tables] ends in, for [step_rows >= 1]. *)
Definition refresh_outcome (step_rows : Z) (w : world) : world :=
  let s := src w in
  let h := ensure (has_pv_column s) (van w) in
  {| src := s;
     van := {|
       van_tpe_materials_extracted :=
         Some (edges_of (tmp_project_elevations s) step_rows);
       van_pv_materials_extracted :=
         if has_pv_column s
         then Some (edges_of (default [] (project_views s)) step_rows)
         else van_pv_materials_extracted h;
       van_jobareas_mat := van_jobareas_mat h;
       van_elev_mat := van_elev_mat h;
       van_pv_mat := van_pv_mat h;
       van_material_usage_summary := van_material_usage_summary h;
       van_unused_materials := van_unused_materials h;
       van_duplicate_materials := van_duplicate_materials h |};
     probes := probes w ++ [pv_probe s];
     clock := clock w;
     now_calls := now_calls w |}.

(** A per-source [last_seen] as the summary statement reads it: the
    far-past sentinel when the source has no row, or no date, for the
    material. *)
Definition last_seen (t : gmap Z agg) (id : Z) : datetime :=
  COALESCE (t !! id ≫= last_dt) epoch.

(** How many of the probes [l] ask for the project-view column. *)
Definition pv_column_probes (l : list probe) : nat :=
  length (filter (λ q, p_table q = "project_views"
                       ∧ p_column q = "existing_material_ids") l).

(** A duplicate row without its [snapshot_at]. *)
Definition without_snapshot (d : dup) : string * string * Z * Z :=
  (key_type d, group_hash d, group_size d, d_material_id d).

Section full_rebuild.
Context `{SqlFunctions}.

(** The rows the four strategies insert, the first at the [n]-th NOW(). *)
Definition duplicates_of (s : sources) (ck : nat → datetime) (n : nat)
  : list dup :=
  dup_select "title" expr_title (ck n) s
  ++ dup_select "title_brand" expr_title_brand (ck (S n)) s
  ++ dup_select "title_brand_style" expr_title_brand_style (ck (S (S n))) s
  ++ dup_select "title_brand_style_category" expr_title_brand_style_category
                (ck (S (S (S n)))) s.

(** The project-view aggregate a full rebuild joins. *)
Definition pv_mat_rebuilt (s : sources) (h : helpers)
  : option (gmap Z agg) :=
  if has_pv_column s
  then Some (group_by_material_id
               (edges_of (default [] (project_views s)) 5000))
  else van_pv_mat h.

(** The state [rebuild_all] ends in. *)
Definition rebuild_all_outcome (w : world) : result (unit * world) :=
  let s := src w in
  let h := van w in
  let tpe := edges_of (tmp_project_elevations s) 5000 in
  let j := job_areas_of s 5000 in
  let e := group_by_material_id tpe in
  match pv_mat_rebuilt s h with
  | None => Err (UnknownColumn "p.cnt")
  | Some p =>
      let mus := summary_of s j e p in
      Ok (tt,
          {| src := s;
             van := {|
               van_tpe_materials_extracted := Some tpe;
               van_pv_materials_extracted :=
                 if has_pv_column s
                 then Some (edges_of (default [] (project_views s)) 5000)
                 else van_pv_materials_extracted h;
               van_jobareas_mat := Some j;
               van_elev_mat := Some e;
               van_pv_mat := Some p;
               van_material_usage_summary := Some mus;
               van_unused_materials :=
                 Some (unused_of mus (clock w (now_calls w)));
               van_duplicate_materials :=
                 Some (duplicates_of s (clock w) (S (now_calls w))) |};
             probes := probes w ++
               [pv_probe s; pv_probe s; pv_probe s;
                {| p_table := "van_pv_mat"; p_column := "material_id";
                   p_found := true |}];
             clock := clock w;
             now_calls := 5 + now_calls w |})
  end.

End full_rebuild.

End Outcome.

(** ** A small deployment to run the engine on *)

Module Example.
Import Exploder Chunks Sql Aggregator Outcome.

(** Stand-ins for the server's MD5 and LOWER. *)
Definition lower_ascii (c : ascii) : ascii :=
  let n := code c in
  if ((65 <=? n) && (n <=? 90))%N then ascii_of_N (n + 32) else c.

Fixpoint lower (s : string) : string :=
  match s with
  | EmptyString => EmptyString
  | String c s' => String (lower_ascii c) (lower s')
  end.

Definition toy_functions : SqlFunctions :=
  {| MD5 := λ s, "md5:" +:+ s; LOWER := lower |}.

Definition no_helpers : helpers := {|
  van_tpe_materials_extracted := None;
  van_pv_materials_extracted := None;
  van_jobareas_mat := None;
  van_elev_mat := None;
  van_pv_mat := None;
  van_material_usage_summary := None;
  van_unused_materials := None;
  van_duplicate_materials := None |}.

Definition plain (t : string) (md : option datetime) : material :=
  {| title := Some t; material_brand_id := None;
     material_brand_style_id := None; material_category_id := None;
     modified := md |}.

(** 2023-01-01 00:00:00 *)
Definition new_year_2023 : datetime := 1672531200.

(** The elevation row of the end-to-end scenario. *)
Definition elevation_10 : list_row :=
  {| lr_id := 10; lr_modified := Some new_year_2023;
     existing_material_ids := Some "[5,7,7]" |}.

Definition catalog (pv : option (list list_row)) : sources := {|
  materials := {[ 5 := plain "  Oak Panel  " (Some 100);
                  7 := plain "oak panel" None;
                  9 := plain "Oak Panel Deluxe" (Some 50) ]};
  material_brands := ∅;
  material_brand_styles := ∅;
  material_categories := ∅;
  tmp_project_elevations := [elevation_10];
  project_views := pv;
  job_area_materials :=
    [ {| jam_id := 1; material_option_id := Some 3; updated := Some 77 |} ];
  material_options := {[ 3 := Some 5 ]} |}.

Definition fresh (s : sources) : world :=
  {| src := s; van := no_helpers; probes := [];
     clock := λ n, Z.of_nat n; now_calls := 0 |}.

(** A deployment whose [project_views] carries the id-list column. *)
Definition with_project_views : world :=
  fresh (catalog (Some [ {| lr_id := 4; lr_modified := Some 500;
                            existing_material_ids := Some "5, 5 ,x" |} ])).

(** A deployment whose [project_views] lacks the column. *)
Definition without_project_views : world := fresh (catalog None).

(** The state a run ends in ([w] itself if the run fails). *)
Definition after (run : M unit) (w : world) : world :=
  match run w with
  | Ok (_, w') => w'
  | Err _ => w
  end.

(** A deployment that lost the column after a rebuild had created
    [van_pv_mat]: the table is still there, with the counts of that time. *)
Definition with_left_pv_mat : world :=
  {| src := catalog None;
     van := {|
       van_tpe_materials_extracted := Some [];
       van_pv_materials_extracted := Some [];
       van_jobareas_mat := Some ∅;
       van_elev_mat := Some ∅;
       van_pv_mat := Some {[ 9 := {| cnt := 4; last_dt := Some 900 |} ]};
       van_material_usage_summary := Some ∅;
       van_unused_materials := Some ∅;
       van_duplicate_materials := Some [] |};
     probes := []; clock := λ n, Z.of_nat n; now_calls := 0 |}.

(** The tables of [w], met again some time later. *)
Definition later (w : world) : world :=
  {| src := src w; van := van w; probes := [];
     clock := λ n, clock w (100 + n)%nat; now_calls := 0 |}.

End Example.

(** ** What the aggregates count, read from the source tables *)

Module Uses.
Import Exploder Chunks Sql Aggregator.

(** MAX over a nullable date column: the latest date, NULL when every
    date is NULL or there is no row. *)
Definition latest (ds : list (option datetime)) : option datetime :=
  foldr sql_max None ds.

(** The material an association row leads to through [material_options]
    (NULL when the option is missing or has no material). *)
Definition resolved_material (s : sources) (r : jam_row) : option Z :=
  oid ← material_option_id r; mo ← material_options s !! oid; mo.

(** What the join of [_agg_job_areas] selects for an association row. *)
Definition resolved_row (s : sources) (r : jam_row)
  : option (Z * Z * option datetime) :=
  mid ← resolved_material s r; Some (jam_id r, mid, updated r).

(** The [updated] dates of the association rows that lead to [mid]. *)
Definition job_area_uses (s : sources) (mid : Z) : list (option datetime) :=
  updated <$> filter (λ r, resolved_material s r = Some mid)
                     (job_area_materials s).

(** The populated rows whose id list names [mid]. *)
Definition rows_naming (rows : list list_row) (mid : Z) : list list_row :=
  filter (λ r, populated r ∧ mid ∈ _explode_csv (existing_material_ids r))
         rows.

(** The aggregate row for a material used on the dates [ds] (no row when
    it is not used at all). *)
Definition agg_of (ds : list (option datetime)) : option agg :=
  match ds with
  | [] => None
  | _ => Some {| cnt := Z.of_nat (length ds); last_dt := latest ds |}
  end.

Section keys.
Context `{SqlFunctions}.

(** The hash of the key of a material under one strategy, NULL when the
    key is NULL. *)
Definition key_hash (expr_sql : base_row → option string) (s : sources)
    (mat : material) : option string :=
  MD5 <$> expr_sql (base_join s mat).

(** The materials of the catalog whose key hashes to [h]. *)
Definition same_hash (expr_sql : base_row → option string) (s : sources)
    (h : string) : list (Z * material) :=
  filter (λ im, key_hash expr_sql s im.2 = Some h) (map_to_list (materials s)).

(** The four strategies of [rebuild_duplicates], in the order they run. *)
Definition strategies : list (string * (base_row → option string)) :=
  [ ("title", expr_title);
    ("title_brand", expr_title_brand);
    ("title_brand_style", expr_title_brand_style);
    ("title_brand_style_category", expr_title_brand_style_category) ].

End keys.

End Uses.

(** ** The pages

    Every listing page of the application counts the rows of its query,
    derives the number of pages, lets the user pick a page between 1 and
    that number, and reruns the query with LIMIT and OFFSET. *)

Module Pages.
Import Sql Aggregator.

(** [page_count = max((total - 1) // page_size + 1, 1)] *)
Definition page_count (total page_size : Z) : Z :=
  Z.max ((total - 1) / page_size + 1) 1.

(** [offset = (page - 1) * page_size] *)
Definition offset (page page_size : Z) : Z := (page - 1) * page_size.

(** [LIMIT :lim OFFSET :off] on the ordered result of a query. *)
Definition limit_offset {A} (lim off : Z) (rows : list A) : list A :=
  take (Z.to_nat lim) (drop (Z.to_nat off) rows).

(** The rows a page displays, [rows] being what its query selects in the
    order of its ORDER BY clause. *)
Definition shown {A} (page_size page : Z) (rows : list A) : list A :=
  limit_offset page_size (offset page page_size) rows.

(** The usage filter of the All Materials page. *)
Inductive usage_filter :=
  | All_Materials
  | Used_Materials
  | Unused_Materials
  | Used_in_Job_Areas
  | Used_in_Elevations
  | Used_in_Project_Views.

(** What the usage filter appends to the WHERE clause, on the summary row
    the LEFT JOIN brings for a material (no row: every column NULL). *)
Definition usage_condition (f : usage_filter) (mus : option usage) : bool :=
  match f with
  | All_Materials => true
  | Used_Materials => bool_decide (0 < COALESCE (total_uses <$> mus) 0)
  | Unused_Materials => bool_decide (COALESCE (total_uses <$> mus) 0 = 0)
  | Used_in_Job_Areas =>
      bool_decide (0 < COALESCE (used_job_areas <$> mus) 0)
  | Used_in_Elevations =>
      bool_decide (0 < COALESCE (used_elevations <$> mus) 0)
  | Used_in_Project_Views =>
      bool_decide (0 < COALESCE (used_project_views <$> mus) 0)
  end.

(** The materials the All Materials page selects: the rows of
    [materials], each with its three titles and its summary row if it has
    one, that pass the sidebar conditions [sidebar] and the usage
    filter. *)
Definition all_materials (sidebar : Z → base_row → bool) (f : usage_filter)
  : M (gmap Z material) :=
  mus ← select_from T_usage_summary;
  query (λ s, filter (λ im, sidebar im.1 (base_join s im.2)
                            && usage_condition f (mus !! im.1))
                     (materials s)).

(** The materials the Unused Materials page selects: the rows of
    [van_unused_materials] with [reason_all_unused = 1], joined to their
    material, that pass the sidebar conditions. *)
Definition unused_materials (sidebar : Z → base_row → bool)
  : M (gmap Z material) :=
  um ← select_from T_unused;
  query (λ s, filter (λ im, sidebar im.1 (base_join s im.2)
                            && bool_decide (reason_all_unused <$> um !! im.1
                                            = Some true))
                     (materials s)).

End Pages.

(** * Properties *)

(** ** The chunk planner *)

Section chunk_planner.
Import Chunks.

Lemma loop_ranges_from_empty fuel a e step :
  e < a → loop_ranges_from fuel a e step = Some [].
Proof.
  intros Hlt. destruct fuel; simpl; case_decide; (lia || reflexivity).
Qed.

(** Enough fuel: the loop ends, and what it yielded tiles [a .. e] in
    pieces no wider than [step]. *)
Lemma loop_ranges_from_tiles fuel : ∀ a e step,
  1 <= step → a <= e → (Z.to_nat (e - a + 1) <= fuel)%nat →
  ∃ l, loop_ranges_from fuel a e step = Some l ∧ tiles a l e
       ∧ Forall (λ r, width r <= step) l.
Proof.
  induction fuel as [|fuel IH]; intros a e step Hstep Hae Hfuel; [lia|].
  simpl. case_decide; [|lia].
  set (b := Z.min (a + step - 1) e).
  assert (a <= b <= e) as Hb by (unfold b; lia).
  destruct (decide (b + 1 <= e)) as [Hmore|Hlast].
  - destruct (IH (b + 1) e step) as (l & -> & Htl & Hw); [lia..|].
    exists ((a, b) :: l). simpl. split_and!; [done|done|lia|lia|done|].
    constructor; [unfold width; simpl; unfold b; lia | done].
  - rewrite loop_ranges_from_empty by lia.
    exists [(a, b)]. simpl. split_and!; [done|done|lia|lia|lia|].
    constructor; [unfold width; simpl; unfold b; lia | constructor].
Qed.

(** More fuel than needed changes nothing: [Some l] is what the loop
    yields before its condition fails. *)
Lemma loop_ranges_from_more_fuel fuel : ∀ fuel' a e step l,
  loop_ranges_from fuel a e step = Some l → (fuel <= fuel')%nat →
  loop_ranges_from fuel' a e step = Some l.
Proof.
  induction fuel as [|fuel IH]; intros fuel' a e step l; simpl.
  - case_decide; [done|]. intros [= <-] _. apply loop_ranges_from_empty. lia.
  - case_decide as Hae; [|intros [= <-] _; apply loop_ranges_from_empty; lia].
    destruct (loop_ranges_from fuel _ e step) as [l'|] eqn:Hl'; [|done].
    intros [= <-] Hle. destruct fuel' as [|fuel']; [lia|].
    simpl. rewrite decide_True by done.
    by rewrite (IH fuel' _ _ _ l' Hl') by lia.
Qed.

(** With [step <= 0] and a non-empty range the generator never ends. *)
Lemma loop_ranges_from_stuck fuel : ∀ a e step,
  step <= 0 → a <= e → loop_ranges_from fuel a e step = None.
Proof.
  induction fuel as [|fuel IH]; intros a e step Hstep Hae; simpl;
    rewrite decide_True by done; [done|].
  rewrite IH; [done|done|lia].
Qed.

Lemma tiles_concat l : ∀ a e,
  tiles a l e → a <= e + 1 → l ≫= range_ids = seqZ a (e - a + 1).
Proof.
  induction l as [|[x y] l IH]; intros a e Ht _; simpl in Ht.
  - subst a. by rewrite seqZ_nil by lia.
  - destruct Ht as (-> & Hxy & Hye & Htl).
    rewrite bind_cons, (IH _ _ Htl) by lia.
    unfold range_ids; cbn [fst snd].
    replace (y + 1) with (a + (y - a + 1)) by lia.
    rewrite <- seqZ_app by lia. f_equal; lia.
Qed.

Lemma tiles_bounds l : ∀ a e,
  tiles a l e → Forall (λ r, a <= r.1 ∧ r.1 <= r.2 ∧ r.2 <= e) l.
Proof.
  induction l as [|r l IH]; intros a e; simpl; [constructor|].
  intros (Hr & Hle & Hre & Htl). constructor; [lia|].
  eapply Forall_impl; [by apply IH|]. simpl. lia.
Qed.

Lemma tiles_sorted l : ∀ a e,
  tiles a l e → StronglySorted (λ r1 r2, r1.2 < r2.1) l.
Proof.
  induction l as [|r l IH]; intros a e; simpl; [constructor|].
  intros (Hr & Hle & Hre & Htl). constructor; [by eapply IH|].
  eapply Forall_impl; [exact (tiles_bounds _ _ _ Htl)|]. simpl. lia.
Qed.

(** C2.  For [start_id <= end_id] and [step >= 1] the planner ends and
    yields inclusive sub-ranges, in ascending order and each of width at
    most [step], whose ids put end to end are exactly
    [start_id, ..., end_id] (no gap, no overlap); for [start_id > end_id]
    it yields nothing. *)
Theorem loop_ranges_partition (start_id end_id step : Z) :
  (start_id <= end_id → 1 <= step →
   ∃ l, _loop_ranges start_id end_id step = Some l
        ∧ l ≫= range_ids = seqZ start_id (end_id - start_id + 1)
        ∧ Forall (λ r, r.1 <= r.2 ∧ width r <= step) l
        ∧ StronglySorted (λ r1 r2, r1.2 < r2.1) l)
  ∧ (end_id < start_id → _loop_ranges start_id end_id step = Some []).
Proof.
  split.
  - intros Hse Hstep. unfold _loop_ranges.
    destruct (loop_ranges_from_tiles (Z.to_nat (end_id - start_id + 1))
                start_id end_id step) as (l & Hl & Htl & Hw); [lia..|].
    exists l. split_and!; [done| |  |].
    + apply tiles_concat; [done|lia].
    + apply Forall_and. split; [|done].
      eapply Forall_impl; [exact (tiles_bounds _ _ _ Htl)|]. simpl. lia.
    + by eapply tiles_sorted.
  - intros Hlt. by apply loop_ranges_from_empty.
Qed.

Lemma loop_ranges_partition_witness :
  (∃ l, _loop_ranges 1 10 3 = Some l
        ∧ l ≫= range_ids = seqZ 1 (10 - 1 + 1)
        ∧ Forall (λ r, r.1 <= r.2 ∧ width r <= 3) l
        ∧ StronglySorted (λ r1 r2, r1.2 < r2.1) l)
  ∧ _loop_ranges 7 2 3 = Some [].
Proof.
  split.
  - apply (proj1 (loop_ranges_partition 1 10 3)); lia.
  - apply (proj2 (loop_ranges_partition 7 2 3)); lia.
Defined.

End chunk_planner.

(** ** The list exploder *)

Section list_exploder.
Import Exploder.

(** Whatever the first pattern removes, the second removes too. *)
Lemma strip_within_keep c :
  _csv_strip_re c = true → _csv_keep_digits_commas c = true.
Proof.
  destruct c as [[] [] [] [] [] [] [] []]; vm_compute; congruence.
Qed.

Lemma re_sub_empty_absorb (cls1 cls2 : ascii → bool) s :
  (∀ c, cls1 c = true → cls2 c = true) →
  re_sub_empty cls2 (re_sub_empty cls1 s) = re_sub_empty cls2 s.
Proof.
  intros Hsub. induction s as [|c s IH]; simpl; [done|].
  destruct (cls1 c) eqn:H1.
  - by rewrite (Hsub c H1).
  - simpl. by rewrite IH.
Qed.

Lemma split_comma_cons s : ∃ h t, split_comma s = h :: t.
Proof.
  induction s as [|c s (h & t & IH)]; simpl; [by eauto|].
  destruct (is_comma c); [by eauto|]. rewrite IH. by eauto.
Qed.

Lemma digit_not_comma c : is_digit c = true → is_comma c = false.
Proof.
  destruct c as [[] [] [] [] [] [] [] []]; vm_compute; congruence.
Qed.

(** Cleaning and then cutting at the commas is cutting and then keeping
    the digits of every piece. *)
Lemma split_comma_cleaned v :
  split_comma (re_sub_empty _csv_keep_digits_commas v)
  = digits_of <$> split_comma v.
Proof.
  induction v as [|c v IH]; [done|].
  destruct (split_comma_cons v) as (h & t & Hv).
  cbn [re_sub_empty split_comma]. unfold _csv_keep_digits_commas at 1.
  destruct (is_comma c) eqn:Hc.
  - rewrite orb_true_r. cbn [negb split_comma]. rewrite Hc, IH. done.
  - rewrite orb_false_r. rewrite Hv in IH |- *.
    unfold digits_of at 1. cbn [fmap list_fmap re_sub_empty].
    destruct (is_digit c) eqn:Hd; cbn [negb split_comma].
    + rewrite Hc, IH. done.
    + rewrite IH. done.
Qed.

Lemma all_digits_digits_of tok : all_digits (digits_of tok) = true.
Proof.
  unfold digits_of. induction tok as [|c tok IH]; simpl; [done|].
  destruct (is_digit c) eqn:Hd; simpl; [by rewrite Hd|done].
Qed.

Lemma isdigit_digits_of tok :
  isdigit (digits_of tok) = true ↔ digits_of tok ≠ EmptyString.
Proof.
  pose proof (all_digits_digits_of tok) as Hall.
  unfold isdigit. destruct (digits_of tok); [naive_solver|].
  split; [done|by intros _].
Qed.

Lemma filter_filter_ne_notin (seen : gset Z) (i : Z) (l : list Z) :
  i ∈ seen →
  filter (λ y, y ∉ seen) (filter (λ y, y ≠ i) l) = filter (λ y, y ∉ seen) l.
Proof.
  intros Hi. induction l as [|x l IH]; [done|].
  rewrite !filter_cons. destruct (decide (x ≠ i)) as [Hne|Heq].
  - rewrite filter_cons. by rewrite IH.
  - apply dec_stable in Heq. subst x.
    rewrite (decide_False (P := i ∉ seen)) by (intros Hn; by apply Hn).
    done.
Qed.

Lemma filter_notin_insert (seen : gset Z) (i : Z) (l : list Z) :
  filter (λ y, y ∉ {[i]} ∪ seen) l
  = filter (λ y, y ∉ seen) (filter (λ y, y ≠ i) l).
Proof.
  induction l as [|x l IH]; [done|].
  rewrite !filter_cons. destruct (decide (x ≠ i)) as [Hne|Heq].
  - rewrite filter_cons.
    destruct (decide (x ∉ seen)) as [Hx|Hx].
    + rewrite decide_True by set_solver. by rewrite IH.
    + rewrite decide_False by set_solver. done.
  - rewrite decide_False by set_solver. done.
Qed.

(** The loop with its accumulators computes [first_occurrences]. *)
Lemma dedup_loop_spec parts : ∀ seen out,
  dedup_loop parts seen out
  = out ++ filter (λ y, y ∉ seen) (first_occurrences (int <$> parts)).
Proof.
  induction parts as [|p ps IH]; intros seen out; simpl.
  - by rewrite app_nil_r.
  - rewrite filter_cons. destruct (decide (int p ∈ seen)) as [Hin|Hout].
    + rewrite decide_False by (intros Hn; by apply Hn).
      by rewrite IH, filter_filter_ne_notin.
    + rewrite decide_True by done.
      by rewrite IH, <- app_assoc, filter_notin_insert.
Qed.

Lemma filter_notin_empty (seen : gset Z) (l : list Z) :
  seen = ∅ → filter (λ y, y ∉ seen) l = l.
Proof.
  intros ->. induction l as [|x l IH]; [done|].
  rewrite filter_cons, decide_True by set_solver. by rewrite IH.
Qed.

Lemma elem_of_first_occurrences l x : x ∈ first_occurrences l ↔ x ∈ l.
Proof.
  induction l as [|y l IH]; simpl; [done|].
  rewrite !elem_of_cons, list_elem_of_filter, IH.
  destruct (decide (x = y)); naive_solver.
Qed.

Lemma NoDup_first_occurrences l : NoDup (first_occurrences l).
Proof.
  induction l as [|y l IH]; simpl; [constructor|].
  constructor; [|by apply NoDup_filter].
  rewrite list_elem_of_filter. naive_solver.
Qed.


Lemma explode_csv_encoded v :
  _explode_csv (Some v) = first_occurrences (encoded_ints v).
Proof.
  destruct v as [|c v]; [done|].
  unfold _explode_csv, encoded_ints.
  rewrite re_sub_empty_absorb by apply strip_within_keep.
  rewrite split_comma_cleaned, dedup_loop_spec. cbn [app].
  rewrite filter_notin_empty by done. do 2 f_equal.
  generalize (split_comma (String c v)). intros l.
  induction l as [|tok l IH]; [done|].
  rewrite fmap_cons, !filter_cons, IH.
  destruct (decide (digits_of tok ≠ EmptyString)) as [Hne|He].
  - by rewrite decide_True by by apply isdigit_digits_of.
  - rewrite decide_False; [done|]. by rewrite isdigit_digits_of.
Qed.

Lemma explode_csv_NoDup value : NoDup (_explode_csv value).
Proof.
  destruct value as [v|]; [|constructor].
  rewrite explode_csv_encoded. apply NoDup_first_occurrences.
Qed.

(** *** Reading back what was written *)

Lemma int_acc_uint d : ∀ acc,
  int_acc (Zpos acc) (NilEmpty.string_of_uint d) = Zpos (Pos.of_uint_acc d acc).
Proof.
  induction d as [|d IH|d IH|d IH|d IH|d IH|d IH|d IH|d IH|d IH|d IH];
    intros acc; [done|..]; cbn [NilEmpty.string_of_uint int_acc Pos.of_uint_acc];
    rewrite <- IH; f_equal; vm_compute digit_value; lia.
Qed.

Lemma int_acc_uint_0 d :
  int_acc 0 (NilEmpty.string_of_uint d) = Z.of_N (Pos.of_uint d).
Proof.
  induction d as [|d IH|d IH|d IH|d IH|d IH|d IH|d IH|d IH|d IH|d IH];
    [done|exact IH|..];
    cbn [NilEmpty.string_of_uint int_acc Pos.of_uint Z.of_N];
    rewrite <- int_acc_uint; f_equal.
Qed.

Lemma int_decimal n : int (decimal n) = Z.of_N n.
Proof.
  unfold int, decimal. rewrite int_acc_uint_0.
  f_equal. apply DecimalN.Unsigned.of_to.
Qed.

Lemma all_digits_uint d : all_digits (NilEmpty.string_of_uint d) = true.
Proof. induction d; simpl; [done|exact IHd..]. Qed.

Lemma decimal_nonempty n : decimal n ≠ EmptyString.
Proof.
  unfold decimal. destruct n as [|p]; [done|]. cbn [N.to_uint].
  pose proof (DecimalPos.Unsigned.to_uint_nonnil p) as Hnil.
  by destruct (Pos.to_uint p).
Qed.

Lemma digits_of_all_digits t : all_digits t = true → digits_of t = t.
Proof.
  unfold digits_of. induction t as [|c t IH]; simpl; [done|].
  intros [Hc Ht]%andb_true_iff. rewrite Hc. simpl. by rewrite IH.
Qed.

Lemma split_comma_all_digits t : all_digits t = true → split_comma t = [t].
Proof.
  induction t as [|c t IH]; simpl; [done|].
  intros [Hc Ht]%andb_true_iff. by rewrite (digit_not_comma c Hc), IH.
Qed.

Lemma split_comma_append t rest :
  all_digits t = true →
  split_comma (t +:+ "," +:+ rest) = t :: split_comma rest.
Proof.
  induction t as [|c t IH]; simpl; [done|].
  intros [Hc Ht]%andb_true_iff. by rewrite (digit_not_comma c Hc), IH.
Qed.

Lemma concat_cons_cons sep x y (l : list string) :
  String.concat sep (x :: y :: l) = x +:+ sep +:+ String.concat sep (y :: l).
Proof. reflexivity. Qed.

Lemma split_comma_render_csv n l :
  split_comma (render_csv (n :: l)) = decimal <$> n :: l.
Proof.
  unfold render_csv. revert n. induction l as [|k l IH]; intros n.
  - apply split_comma_all_digits, all_digits_uint.
  - rewrite !fmap_cons, concat_cons_cons, <- fmap_cons.
    rewrite split_comma_append by apply all_digits_uint.
    by rewrite IH.
Qed.

(** A list of ids written with commas is read back as it was written. *)
Lemma encoded_ints_render_csv l : encoded_ints (render_csv l) = Z.of_N <$> l.
Proof.
  destruct l as [|n l]; [done|].
  unfold encoded_ints. rewrite split_comma_render_csv.
  generalize (n :: l). clear. intros l.
  induction l as [|n l IH]; [done|].
  rewrite !fmap_cons, digits_of_all_digits by apply all_digits_uint.
  rewrite filter_cons, decide_True by apply decimal_nonempty.
  by rewrite fmap_cons, IH, int_decimal.
Qed.



End list_exploder.

(** ** Running the statements *)

Section runs.
Import Exploder Chunks Sql Aggregator Outcome.

#[local] Instance laws_tpe_extracted : TableLaws T_tpe_extracted.
Proof. split; intros; by destruct h. Qed.
#[local] Instance laws_pv_extracted : TableLaws T_pv_extracted.
Proof. split; intros; by destruct h. Qed.
#[local] Instance laws_jobareas_mat : TableLaws T_jobareas_mat.
Proof. split; intros; by destruct h. Qed.
#[local] Instance laws_elev_mat : TableLaws T_elev_mat.
Proof. split; intros; by destruct h. Qed.
#[local] Instance laws_pv_mat : TableLaws T_pv_mat.
Proof. split; intros; by destruct h. Qed.
#[local] Instance laws_usage_summary : TableLaws T_usage_summary.
Proof. split; intros; by destruct h. Qed.
#[local] Instance laws_unused : TableLaws T_unused.
Proof. split; intros; by destruct h. Qed.
#[local] Instance laws_duplicates : TableLaws T_duplicates.
Proof. split; intros; by destruct h. Qed.

Lemma run_bind {A B} (m : M A) (f : A → M B) w :
  (m ≫= f) w = match m w with Ok (a, w') => f a w' | Err e => Err e end.
Proof. reflexivity. Qed.

Lemma ensure_tables_run has_pv s h pr ck n :
  _ensure_tables has_pv (Build_world s h pr ck n)
  = Ok (tt, Build_world s (ensure has_pv h) pr ck n).
Proof. destruct has_pv, h; reflexivity. Qed.

Lemma filter_helper_columns_ne {T} (tb : table T) h t c :
  tname tb ≠ t →
  filter (λ tc : string * list string, tc.1 = t ∧ c ∈ tc.2)
         (helper_columns tb h) = [].
Proof.
  intros Hne. unfold helper_columns. destruct (tget tb h); [|done].
  rewrite filter_cons, decide_False; [done|]. simpl. naive_solver.
Qed.

Lemma col_exists_pv s h pr ck n :
  _col_exists "project_views" "existing_material_ids" (Build_world s h pr ck n)
  = Ok (has_pv_column s, Build_world s h (pr ++ [pv_probe s]) ck n).
Proof.
  unfold _col_exists, count_columns, information_schema, pv_probe, has_pv_column.
  cbn [src van probes clock now_calls].
  rewrite !filter_app, !filter_helper_columns_ne by done.
  destruct (project_views s); vm_compute; reflexivity.
Qed.

Lemma col_exists_pv_mat s h pr ck n :
  _col_exists "van_pv_mat" "material_id" (Build_world s h pr ck n)
  = Ok (bool_decide (is_Some (van_pv_mat h)),
        Build_world s h
          (pr ++ [{| p_table := "van_pv_mat"; p_column := "material_id";
                     p_found := bool_decide (is_Some (van_pv_mat h)) |}])
          ck n).
Proof.
  unfold _col_exists, count_columns, information_schema.
  cbn [src van probes clock now_calls].
  rewrite !filter_app.
  rewrite (filter_helper_columns_ne T_tpe_extracted),
    (filter_helper_columns_ne T_pv_extracted),
    (filter_helper_columns_ne T_jobareas_mat),
    (filter_helper_columns_ne T_elev_mat),
    (filter_helper_columns_ne T_usage_summary),
    (filter_helper_columns_ne T_unused),
    (filter_helper_columns_ne T_duplicates) by done.
  unfold helper_columns. cbn [tget T_pv_mat].
  destruct (van_pv_mat h), (project_views s); vm_compute; reflexivity.
Qed.

Lemma foldl_min_le l : ∀ x y, y ∈ x :: l → foldl Z.min x l <= y.
Proof.
  induction l as [|z l IH]; intros x y Hy; simpl.
  - apply list_elem_of_singleton in Hy. lia.
  - apply elem_of_cons in Hy as [->|Hy].
    + etrans; [apply IH; left|]. lia.
    + apply elem_of_cons in Hy as [->|Hy].
      * etrans; [apply IH; left|]. lia.
      * apply IH. by right.
Qed.

Lemma foldl_max_ge l : ∀ x y, y ∈ x :: l → y <= foldl Z.max x l.
Proof.
  induction l as [|z l IH]; intros x y Hy; simpl.
  - apply list_elem_of_singleton in Hy. lia.
  - apply elem_of_cons in Hy as [->|Hy].
    + etrans; [|apply IH; left]. lia.
    + apply elem_of_cons in Hy as [->|Hy].
      * etrans; [|apply IH; left]. lia.
      * apply IH. by right.
Qed.

(** MIN and MAX bound every id they were taken over. *)
Lemma select_min_max_bounds ids mi ma :
  select_min_max ids = (Some mi, Some ma) → ∀ x, x ∈ ids → mi <= x <= ma.
Proof.
  destruct ids as [|i ids]; [done|]. intros [= <- <-] x Hx.
  split; [by apply foldl_min_le | by apply foldl_max_ge].
Qed.

Lemma select_min_max_nil ids :
  select_min_max ids = (None, None) ↔ ids = [].
Proof. destruct ids; naive_solver. Qed.

Lemma select_min_max_cases ids :
  (ids = [] ∧ select_min_max ids = (None, None))
  ∨ (∃ mi ma, select_min_max ids = (Some mi, Some ma) ∧ mi <= ma).
Proof.
  destruct ids as [|i ids]; [by left|]. right. do 2 eexists. split; [done|].
  etrans; [apply foldl_min_le; left | apply foldl_max_ge; left].
Qed.

Lemma loop_ranges_some mi ma step :
  1 <= step → mi <= ma → ∃ l, _loop_ranges mi ma step = Some l ∧ tiles mi l ma.
Proof.
  intros Hstep Hle.
  destruct (loop_ranges_from_tiles (Z.to_nat (ma - mi + 1)) mi ma step)
    as (l & Hl & Htl & _); [lia..|]. by exists l.
Qed.

(** The per-chunk loop of the extraction stage appends what each chunk
    contributes. *)
Lemma extract_chunk_run (rows_of : sources → list list_row)
    (tb : table (list edge)) `{!TableLaws tb} r t s h pr ck n :
  tget tb h = Some t →
  extract_chunk rows_of tb r (Build_world s h pr ck n)
  = Ok (tt, Build_world s
              (tset tb (Some (t ++ chunk_edges (rows_of s) r)) h) pr ck n).
Proof.
  intros Ht. destruct r as [a b]. unfold extract_chunk, chunk_edges.
  rewrite run_bind. cbn [query src fst snd].
  destruct (explode_rows (select_chunk (rows_of s) a b)) as [|e rows].
  - cbn. by rewrite app_nil_r, <- Ht, set_get.
  - unfold insert_rows. cbn [van]. by rewrite Ht.
Qed.

(** The per-chunk loop of the extraction stage appends what each chunk
    contributes. *)
Lemma for_each_extract (rows_of : sources → list list_row)
    (tb : table (list edge)) `{!TableLaws tb} chunks : ∀ t s h pr ck n,
  tget tb h = Some t →
  for_each chunks (extract_chunk rows_of tb) (Build_world s h pr ck n)
  = Ok (tt, Build_world s
              (tset tb (Some (t ++ chunks ≫= chunk_edges (rows_of s))) h)
              pr ck n).
Proof.
  induction chunks as [|r chunks IH]; intros t s h pr ck n Ht.
  - cbn. by rewrite app_nil_r, <- Ht, set_get.
  - cbn [for_each]. rewrite run_bind, (extract_chunk_run _ _ _ t) by done.
    rewrite (IH (t ++ chunk_edges (rows_of s) r)) by apply get_set.
    by rewrite set_set, bind_cons, <- app_assoc.
Qed.

Lemma extract_source_run (rows_of : sources → list list_row)
    (tb : table (list edge)) `{!TableLaws tb} step t s h pr ck n :
  1 <= step → tget tb h = Some t →
  extract_source rows_of tb step (Build_world s h pr ck n)
  = Ok (tt, Build_world s
              (tset tb (Some (t ++ edges_of (rows_of s) step)) h) pr ck n).
Proof.
  intros Hstep Ht. unfold extract_source, edges_of.
  rewrite run_bind. cbn [query src].
  destruct (select_min_max_cases (lr_id <$> filter populated (rows_of s)))
    as [[_ ->]|(mi & ma & -> & Hle)].
  - cbn. by rewrite app_nil_r, <- Ht, set_get.
  - destruct (loop_ranges_some mi ma step) as (l & Hl & _); [done..|].
    unfold for_ranges. rewrite Hl. cbn [default from_option id].
    by apply for_each_extract.
Qed.

Lemma truncate_run {T} (tb : table T) (empty t : T) s h pr ck n :
  tget tb h = Some t →
  truncate_table tb empty (Build_world s h pr ck n)
  = Ok (tt, Build_world s (tset tb (Some empty) h) pr ck n).
Proof. intros Ht. unfold truncate_table. cbn [van]. by rewrite Ht. Qed.

Lemma select_from_run {T} (tb : table T) (t : T) s h pr ck n :
  tget tb h = Some t →
  select_from tb (Build_world s h pr ck n) = Ok (t, Build_world s h pr ck n).
Proof. intros Ht. unfold select_from. cbn [van]. by rewrite Ht. Qed.

Lemma insert_rows_run {R} (tb : table (list R)) (t rows : list R)
    s h pr ck n :
  tget tb h = Some t →
  insert_rows tb rows (Build_world s h pr ck n)
  = Ok (tt, Build_world s (tset tb (Some (t ++ rows)) h) pr ck n).
Proof. intros Ht. unfold insert_rows. cbn [van]. by rewrite Ht. Qed.

(** Right after a TRUNCATE no key can clash. *)
Lemma insert_keyed_run {R} (tb : table (gmap Z R)) (rows : gmap Z R)
    s h pr ck n :
  tget tb h = Some ∅ →
  insert_keyed tb rows (Build_world s h pr ck n)
  = Ok (tt, Build_world s (tset tb (Some rows) h) pr ck n).
Proof.
  intros Ht. unfold insert_keyed. cbn [van]. rewrite Ht.
  rewrite decide_True by apply map_disjoint_empty_r.
  by rewrite (right_id_L ∅ (∪)).
Qed.

Lemma now_run s h pr ck n :
  NOW (Build_world s h pr ck n) = Ok (ck n, Build_world s h pr ck (S n)).
Proof. reflexivity. Qed.

Lemma query_run {A} (q : sources → A) s h pr ck n :
  query q (Build_world s h pr ck n) = Ok (q s, Build_world s h pr ck n).
Proof. reflexivity. Qed.

Lemma ret_run {A} (a : A) w : (mret a : M A) w = Ok (a, w).
Proof. reflexivity. Qed.

(** One statement of a run: name it, run it, go on with what follows. *)
Ltac run_with lem :=
  rewrite ?run_bind; erewrite lem by reflexivity; cbv beta iota.

Lemma refresh_run step w :
  1 <= step →
  refresh_extracted_tables step w = Ok (tt, refresh_outcome step w).
Proof.
  intros Hstep. destruct w as [s h pr ck n].
  unfold refresh_extracted_tables, refresh_outcome.
  cbn [src van probes clock now_calls].
  run_with col_exists_pv. run_with ensure_tables_run.
  run_with (truncate_run T_tpe_extracted).
  destruct (has_pv_column s) eqn:Hpv; cbn [when].
  - run_with (truncate_run T_pv_extracted).
    rewrite run_bind.
    rewrite (extract_source_run tmp_project_elevations T_tpe_extracted step [])
      by done.
    cbv beta iota.
    rewrite (extract_source_run _ T_pv_extracted step []) by done.
    destruct h; reflexivity.
  - run_with @ret_run. rewrite run_bind.
    rewrite (extract_source_run tmp_project_elevations T_tpe_extracted step [])
      by done.
    destruct h; reflexivity.
Qed.

Lemma for_fold_jam chunks : ∀ acc s h pr ck n,
  for_fold chunks jam_chunk acc (Build_world s h pr ck n)
  = Ok (foldl (λ acc r, foldl jam_step acc (select_jam_chunk s r.1 r.2))
              acc chunks,
        Build_world s h pr ck n).
Proof.
  induction chunks as [|[a b] chunks IH]; intros acc s h pr ck n; [done|].
  cbn [for_fold]. rewrite run_bind. unfold jam_chunk at 1.
  rewrite run_bind. cbn [query src mret M_ret ret].
  by rewrite IH.
Qed.

Lemma agg_job_areas_run step t s h pr ck n :
  1 <= step → van_jobareas_mat h = Some t →
  _agg_job_areas step (Build_world s h pr ck n)
  = Ok (tt, Build_world s (tset T_jobareas_mat (Some (job_areas_of s step)) h)
              pr ck n).
Proof.
  intros Hstep Ht. unfold _agg_job_areas, job_areas_of.
  run_with @query_run.
  destruct (select_min_max_cases (jam_id <$> job_area_materials s))
    as [[_ ->]|(mi & ma & -> & Hle)].
  - by apply truncate_run with t.
  - destruct (loop_ranges_some mi ma step) as (l & -> & _); [done..|].
    cbn [default from_option id]. run_with for_fold_jam.
    rewrite run_bind, (truncate_run T_jobareas_mat ∅ t) by done.
    cbv beta iota.
    case_decide as Hrows; [by rewrite Hrows|].
    rewrite insert_keyed_run by apply get_set. by rewrite set_set.
Qed.

Lemma resolve_run alias (j : joined) col s h pr ck n :
  col ∈ j_columns j →
  resolve alias j col (Build_world s h pr ck n)
  = Ok (tt, Build_world s h pr ck n).
Proof. intros Hin. unfold resolve. by rewrite decide_True. Qed.

(** With the project-view aggregate in place the summary statement
    inserts one row per material. *)
Lemma insert_usage_summary_run j e p s h pr ck n :
  van_jobareas_mat h = Some j → van_elev_mat h = Some e →
  van_pv_mat h = Some p → van_material_usage_summary h = Some ∅ →
  insert_usage_summary true (Build_world s h pr ck n)
  = Ok (tt, Build_world s (tset T_usage_summary (Some (summary_of s j e p)) h)
              pr ck n).
Proof.
  intros Hj He Hp Hmus. unfold insert_usage_summary.
  run_with @query_run.
  rewrite run_bind, (select_from_run T_jobareas_mat j) by done. cbv beta iota.
  rewrite run_bind, (select_from_run T_elev_mat e) by done. cbv beta iota.
  rewrite run_bind, run_bind, (select_from_run T_pv_mat p) by done.
  cbv beta iota. rewrite ret_run. cbv beta iota.
  rewrite run_bind, resolve_run by (vm_compute; set_solver). cbv beta iota.
  rewrite run_bind, resolve_run by (vm_compute; set_solver). cbv beta iota.
  by rewrite insert_keyed_run.
Qed.

(** Without it the statement joins [(SELECT NULL) p], which has no column
    [cnt]: the server rejects the statement. *)
Lemma insert_usage_summary_fails j e s h pr ck n :
  van_jobareas_mat h = Some j → van_elev_mat h = Some e →
  insert_usage_summary false (Build_world s h pr ck n)
  = Err (UnknownColumn "p.cnt").
Proof.
  intros Hj He. unfold insert_usage_summary.
  run_with @query_run.
  rewrite run_bind, (select_from_run T_jobareas_mat j) by done. cbv beta iota.
  rewrite run_bind, (select_from_run T_elev_mat e) by done. cbv beta iota.
  rewrite run_bind, ret_run. cbv beta iota.
  rewrite run_bind. unfold resolve at 1.
  rewrite decide_False; [done|]. vm_compute. set_solver.
Qed.

Lemma insert_unused_run mus s h pr ck n :
  van_material_usage_summary h = Some mus → van_unused_materials h = Some ∅ →
  insert_unused (Build_world s h pr ck n)
  = Ok (tt, Build_world s (tset T_unused (Some (unused_of mus (ck n))) h)
              pr ck (S n)).
Proof.
  intros Hmus Hun. unfold insert_unused.
  rewrite run_bind, (select_from_run T_usage_summary mus) by done.
  cbv beta iota. run_with now_run.
  by rewrite insert_keyed_run.
Qed.

Ltac helpers_simpl :=
  cbn [tset tget T_tpe_extracted T_pv_extracted T_jobareas_mat T_elev_mat
       T_pv_mat T_usage_summary T_unused T_duplicates ensure
       van_tpe_materials_extracted van_pv_materials_extracted
       van_jobareas_mat van_elev_mat van_pv_mat van_material_usage_summary
       van_unused_materials van_duplicate_materials].

Lemma usage_summary_run w :
  rebuild_usage_summary w = usage_summary_outcome w.
Proof.
  destruct w as [s h pr ck n].
  unfold rebuild_usage_summary, usage_summary_outcome, pv_mat_after.
  cbn [src van probes clock now_calls].
  run_with col_exists_pv. run_with ensure_tables_run.
  rewrite run_bind, (agg_job_areas_run 5000 (default ∅ (van_jobareas_mat h)))
    by done.
  cbv beta iota.
  run_with (truncate_run T_elev_mat).
  run_with (select_from_run T_tpe_extracted).
  run_with (insert_keyed_run T_elev_mat).
  destruct h as [tpe pve jm em pm us un du].
  destruct (has_pv_column s) eqn:Hpv; cbn [when]; helpers_simpl.
  - run_with (truncate_run T_pv_mat). helpers_simpl.
    run_with (select_from_run T_pv_extracted).
    run_with (insert_keyed_run T_pv_mat). helpers_simpl.
    run_with (truncate_run T_usage_summary). helpers_simpl.
    run_with col_exists_pv_mat. helpers_simpl.
    rewrite bool_decide_eq_true_2 by eauto.
    run_with insert_usage_summary_run. helpers_simpl.
    run_with (truncate_run T_unused). helpers_simpl.
    erewrite insert_unused_run by reflexivity.
    rewrite <- app_assoc. reflexivity.
  - run_with @ret_run.
    run_with (truncate_run T_usage_summary). helpers_simpl.
    run_with col_exists_pv_mat. helpers_simpl.
    destruct pm as [p|].
    + rewrite bool_decide_eq_true_2 by eauto.
      run_with insert_usage_summary_run. helpers_simpl.
      run_with (truncate_run T_unused). helpers_simpl.
      erewrite insert_unused_run by reflexivity.
      rewrite <- app_assoc. reflexivity.
    + rewrite bool_decide_eq_false_2 by (by intros [? ?]).
      rewrite run_bind. erewrite insert_usage_summary_fails by reflexivity.
      reflexivity.
Qed.

Section full_rebuild_runs.
Context `{SqlFunctions}.

Lemma dup_insert_run kt expr_sql t s h pr ck n :
  van_duplicate_materials h = Some t →
  _dup_insert kt expr_sql (Build_world s h pr ck n)
  = Ok (tt, Build_world s
              (tset T_duplicates (Some (t ++ dup_select kt expr_sql (ck n) s)) h)
              pr ck (S n)).
Proof.
  intros Ht. unfold _dup_insert. run_with now_run. run_with @query_run.
  by rewrite (insert_rows_run T_duplicates t).
Qed.

Lemma duplicates_run t s h pr ck n :
  van_duplicate_materials h = Some t →
  rebuild_duplicates (Build_world s h pr ck n)
  = Ok (tt, Build_world s (tset T_duplicates (Some (duplicates_of s ck n)) h)
              pr ck (4 + n)).
Proof.
  intros Ht. unfold rebuild_duplicates, duplicates_of.
  rewrite run_bind, (truncate_run T_duplicates [] t) by done. cbv beta iota.
  do 3 (rewrite run_bind;
        erewrite dup_insert_run by apply (get_set (tb := T_duplicates));
        cbv beta iota; rewrite set_set).
  erewrite dup_insert_run by apply (get_set (tb := T_duplicates)).
  rewrite set_set.
  cbn [app]. by rewrite <- !app_assoc.
Qed.

Lemma rebuild_all_run w : rebuild_all w = rebuild_all_outcome w.
Proof.
  destruct w as [s h pr ck n].
  unfold rebuild_all, rebuild_all_outcome, pv_mat_rebuilt.
  cbn [src van probes clock now_calls].
  run_with col_exists_pv. run_with ensure_tables_run.
  rewrite run_bind, refresh_run by done. cbv beta iota.
  rewrite run_bind, usage_summary_run.
  unfold usage_summary_outcome, refresh_outcome, pv_mat_after.
  cbn [src van probes clock now_calls].
  destruct h as [tpe pve jm em pm us un du].
  destruct (has_pv_column s) eqn:Hpv; helpers_simpl.
  - cbv beta iota zeta. erewrite duplicates_run by reflexivity.
    helpers_simpl. cbn [default from_option id].
    rewrite <- !app_assoc. reflexivity.
  - destruct pm as [p|]; [|reflexivity].
    cbv beta iota zeta. erewrite duplicates_run by reflexivity.
    helpers_simpl. cbn [default from_option id].
    rewrite <- !app_assoc. reflexivity.
Qed.

End full_rebuild_runs.

End runs.

(** ** The usage summary and the unused snapshot *)

Section usage_summary.
Import Exploder Chunks Sql Aggregator Outcome.

Lemma summary_of_lookup s j e p id :
  summary_of s j e p !! id
  = (λ m, summary_row (join_table j) (join_table e) (join_table p) id m)
      <$> materials s !! id.
Proof.
  unfold summary_of. rewrite map_lookup_imap.
  by destruct (materials s !! id).
Qed.

Lemma summary_of_dom s j e p : dom (summary_of s j e p) = dom (materials s).
Proof.
  apply set_eq. intros id. rewrite !elem_of_dom, summary_of_lookup.
  by rewrite fmap_is_Some.
Qed.

(** A completed run of [rebuild_usage_summary], taken apart. *)
Lemma usage_summary_completed w w' :
  rebuild_usage_summary w = Ok (tt, w') →
  ∃ p, pv_mat_after (src w) (van w) = Some p
       ∧ src w' = src w
       ∧ van_jobareas_mat (van w') = Some (job_areas_of (src w) 5000)
       ∧ van_elev_mat (van w')
         = Some (group_by_material_id
                   (default [] (van_tpe_materials_extracted (van w))))
       ∧ van_pv_mat (van w') = Some p
       ∧ van_material_usage_summary (van w')
         = Some (summary_of (src w) (job_areas_of (src w) 5000)
                   (group_by_material_id
                      (default [] (van_tpe_materials_extracted (van w)))) p)
       ∧ van_unused_materials (van w')
         = Some (unused_of
                   (summary_of (src w) (job_areas_of (src w) 5000)
                      (group_by_material_id
                         (default [] (van_tpe_materials_extracted (van w)))) p)
                   (clock w (now_calls w))).
Proof.
  rewrite usage_summary_run. unfold usage_summary_outcome.
  destruct (pv_mat_after (src w) (van w)) as [p|]; [|done].
  intros [= <-]. exists p. by split_and!.
Qed.

(** The run completes as soon as there is a project-view aggregate to
    join: the column exists, or an earlier rebuild left the table. *)
Lemma usage_summary_completes w :
  is_Some (project_views (src w)) ∨ is_Some (van_pv_mat (van w)) →
  ∃ w', rebuild_usage_summary w = Ok (tt, w').
Proof.
  intros Hpv. rewrite usage_summary_run.
  unfold usage_summary_outcome, pv_mat_after, has_pv_column.
  case_bool_decide as Hcol; [by eexists|].
  destruct Hpv as [?|[p ->]]; [done|by eexists].
Qed.

(** C1.  After [rebuild_usage_summary] completes, every row of the usage
    summary has [total_uses] equal to the sum of its three counts, and
    the material ids of the summary are exactly the ids of the materials
    catalog, one row each (as many rows as the catalog has). *)
Theorem usage_summary_invariant w w' :
  rebuild_usage_summary w = Ok (tt, w') →
  ∃ mus, van_material_usage_summary (van w') = Some mus
    ∧ (∀ id r, mus !! id = Some r →
         total_uses r
         = used_job_areas r + used_elevations r + used_project_views r)
    ∧ dom mus = dom (materials (src w))
    ∧ size mus = size (materials (src w)).
Proof.
  intros Hrun.
  destruct (usage_summary_completed _ _ Hrun)
    as (p & _ & _ & _ & _ & _ & Hmus & _).
  eexists. split; [exact Hmus|]. split_and!.
  - intros id r. rewrite summary_of_lookup.
    destruct (materials (src w) !! id) as [m|]; [|done].
    by intros [= <-].
  - apply summary_of_dom.
  - by rewrite <- !size_dom, summary_of_dom.
Qed.

(** C4 (what the code does).  When [project_views] has no column
    [existing_material_ids] and no table [van_pv_mat] exists, the summary
    statement joins [(SELECT NULL) p] and still names [p.cnt], so
    [rebuild_usage_summary] stops with an unknown-column error and
    produces no summary row. *)
Theorem usage_summary_without_project_views w :
  project_views (src w) = None → van_pv_mat (van w) = None →
  rebuild_usage_summary w = Err (UnknownColumn "p.cnt").
Proof.
  intros Hcol Htab. rewrite usage_summary_run.
  unfold usage_summary_outcome, pv_mat_after, has_pv_column.
  rewrite Hcol, Htab. by rewrite bool_decide_eq_false_2 by (by intros [? ?]).
Qed.

(** C5 (what the code does).  After a completed run, the [last_used] of
    a material whose [modified] is not null is the maximum of the three
    per-source dates (the sentinel 1970-01-01 for a source without a row
    or a date) and [modified]; for a material whose [modified] is null,
    [last_used] is null. *)
Theorem last_used_greatest w w' id m :
  rebuild_usage_summary w = Ok (tt, w') →
  materials (src w) !! id = Some m →
  ∃ j e p mus r,
    van_jobareas_mat (van w') = Some j ∧ van_elev_mat (van w') = Some e
    ∧ van_pv_mat (van w') = Some p
    ∧ van_material_usage_summary (van w') = Some mus
    ∧ mus !! id = Some r
    ∧ last_used r
      = match modified m with
        | Some t =>
            Some (Z.max (Z.max (Z.max (last_seen j id) (last_seen e id))
                               (last_seen p id)) t)
        | None => None
        end.
Proof.
  intros Hrun Hm.
  destruct (usage_summary_completed _ _ Hrun)
    as (p & _ & _ & Hj & He & Hp & Hmus & _).
  do 5 eexists. split_and!; [exact Hj|exact He|exact Hp|exact Hmus| |].
  - by rewrite summary_of_lookup, Hm.
  - cbn. by destruct (modified m).
Qed.

(** With the column absent, a table [van_pv_mat] left by an earlier
    rebuild is joined as it is: the run completes and the project-view
    count of a material is the count that table holds for it. *)
Lemma used_project_views_from_left_table w w' p id :
  project_views (src w) = None → van_pv_mat (van w) = Some p →
  rebuild_usage_summary w = Ok (tt, w') →
  is_Some (materials (src w) !! id) →
  ∃ mus r, van_material_usage_summary (van w') = Some mus
    ∧ mus !! id = Some r
    ∧ used_project_views r = COALESCE (cnt <$> p !! id) 0.
Proof.
  intros Hcol Hp Hrun [m Hm].
  destruct (usage_summary_completed _ _ Hrun)
    as (p' & Hp' & _ & _ & _ & _ & Hmus & _).
  unfold pv_mat_after, has_pv_column in Hp'.
  rewrite Hcol, Hp in Hp'.
  rewrite bool_decide_eq_false_2 in Hp' by (by intros [? ?]).
  injection Hp' as <-.
  do 2 eexists. split_and!; [exact Hmus| |].
  - by rewrite summary_of_lookup, Hm.
  - reflexivity.
Qed.

(** C6.  After a completed rebuild of the summary, a material is in
    [van_unused_materials] exactly when its summary row has
    [total_uses = 0]. *)
Theorem unused_iff_zero_total w w' :
  rebuild_usage_summary w = Ok (tt, w') →
  ∃ mus un,
    van_material_usage_summary (van w') = Some mus
    ∧ van_unused_materials (van w') = Some un
    ∧ ∀ id, id ∈ dom un ↔ ∃ r, mus !! id = Some r ∧ total_uses r = 0.
Proof.
  intros Hrun.
  destruct (usage_summary_completed _ _ Hrun)
    as (p & _ & _ & _ & _ & _ & Hmus & Hun).
  do 2 eexists. split_and!; [exact Hmus|exact Hun|].
  intros id. unfold unused_of. rewrite dom_fmap_L, elem_of_dom.
  unfold is_Some. setoid_rewrite map_lookup_filter_Some. done.
Qed.

End usage_summary.

(** ** The full rebuild *)

Section full_rebuild.
Import Exploder Chunks Sql Aggregator Outcome.
Context `{SqlFunctions}.

Lemma dup_select_without_snapshot kt expr_sql now now' s :
  without_snapshot <$> dup_select kt expr_sql now s
  = without_snapshot <$> dup_select kt expr_sql now' s.
Proof.
  unfold dup_select.
  induction (dup_groups (dup_keys expr_sql s)) as [|g gs IH]; [done|].
  rewrite !bind_cons, !fmap_app, IH. f_equal.
  destruct g.1; [|done]. by rewrite <- !list_fmap_compose.
Qed.

Lemma duplicates_of_without_snapshot s ck n ck' n' :
  without_snapshot <$> duplicates_of s ck n
  = without_snapshot <$> duplicates_of s ck' n'.
Proof.
  unfold duplicates_of. rewrite !fmap_app.
  f_equal; [apply dup_select_without_snapshot|].
  f_equal; [apply dup_select_without_snapshot|].
  f_equal; apply dup_select_without_snapshot.
Qed.

(** The project-view aggregate a completed full rebuild leaves is the one
    the next full rebuild joins. *)
Lemma pv_mat_rebuilt_again s h h' p :
  pv_mat_rebuilt s h = Some p → van_pv_mat h' = Some p →
  pv_mat_rebuilt s h' = Some p.
Proof. unfold pv_mat_rebuilt. by destruct (has_pv_column s). Qed.

(** C7.  A second full rebuild after a completed one, run at any later
    time on the same source and helper tables, completes too and leaves
    the same usage summary and the same duplicate groups, [snapshot_at]
    set aside. *)
Theorem rebuild_all_idempotent w w1 w1' :
  rebuild_all w = Ok (tt, w1) →
  src w1' = src w1 → van w1' = van w1 →
  ∃ w2 mus d1 d2,
    rebuild_all w1' = Ok (tt, w2)
    ∧ src w2 = src w
    ∧ van_material_usage_summary (van w1) = Some mus
    ∧ van_material_usage_summary (van w2) = Some mus
    ∧ van_duplicate_materials (van w1) = Some d1
    ∧ van_duplicate_materials (van w2) = Some d2
    ∧ without_snapshot <$> d1 = without_snapshot <$> d2.
Proof.
  rewrite !rebuild_all_run. unfold rebuild_all_outcome at 1.
  destruct (pv_mat_rebuilt (src w) (van w)) as [p|] eqn:Hp; [|done].
  intros [= <-]. cbn [src van]. intros Hsrc Hvan.
  unfold rebuild_all_outcome. rewrite Hsrc.
  rewrite (pv_mat_rebuilt_again _ _ (van w1') p Hp) by by rewrite Hvan.
  do 4 eexists. split_and!; try reflexivity.
  cbn [van van_duplicate_materials]. apply duplicates_of_without_snapshot.
Qed.

(** C9 (what the code does).  One completed [rebuild_all] probes the
    schema for the project-view column three times: once itself, once in
    [refresh_extracted_tables], once in [rebuild_usage_summary]; each
    probe gets the same answer, and a fourth probe asks for the table
    [van_pv_mat]. *)
Theorem rebuild_all_probes w w' :
  rebuild_all w = Ok (tt, w') →
  ∃ new, probes w' = probes w ++ new
    ∧ new = [pv_probe (src w); pv_probe (src w); pv_probe (src w);
             {| p_table := "van_pv_mat"; p_column := "material_id";
                p_found := true |}]
    ∧ pv_column_probes new = 3%nat.
Proof.
  rewrite rebuild_all_run. unfold rebuild_all_outcome.
  destruct (pv_mat_rebuilt (src w) (van w)) as [p|]; [|done].
  intros [= <-]. eexists. split_and!; reflexivity.
Qed.

(** After a completed full rebuild too, the unused snapshot holds exactly
    the materials whose summary row has no use. *)
Lemma rebuild_all_unused_iff_zero_total w w' :
  rebuild_all w = Ok (tt, w') →
  ∃ mus un,
    van_material_usage_summary (van w') = Some mus
    ∧ van_unused_materials (van w') = Some un
    ∧ ∀ id, id ∈ dom un ↔ ∃ r, mus !! id = Some r ∧ total_uses r = 0.
Proof.
  rewrite rebuild_all_run. unfold rebuild_all_outcome.
  destruct (pv_mat_rebuilt (src w) (van w)) as [p|]; [|done].
  intros [= <-]. do 2 eexists. split_and!; [reflexivity..|].
  intros id. unfold unused_of. rewrite dom_fmap_L, elem_of_dom.
  unfold is_Some. setoid_rewrite map_lookup_filter_Some. done.
Qed.

End full_rebuild.

(** ** The extraction stage *)

Section extraction.
Import Exploder Chunks Sql Aggregator Outcome.

(** Two filters that share no element make up the filter of their union. *)
Lemma filter_app_disjoint {A} (P1 P2 P3 : A → Prop)
    `{!∀ x, Decision (P1 x)} `{!∀ x, Decision (P2 x)}
    `{!∀ x, Decision (P3 x)} (l : list A) :
  (∀ x, P3 x ↔ P1 x ∨ P2 x) → (∀ x, P1 x → P2 x → False) →
  filter P1 l ++ filter P2 l ≡ₚ filter P3 l.
Proof.
  intros Hor Hdisj. induction l as [|x l IH]; [done|].
  rewrite !filter_cons.
  destruct (decide (P1 x)) as [Ha|Ha], (decide (P2 x)) as [Hb|Hb].
  - destruct (Hdisj x Ha Hb).
  - rewrite decide_True by naive_solver. cbn. by rewrite IH.
  - rewrite decide_True by naive_solver.
    rewrite <- Permutation_middle. by rewrite IH.
  - rewrite decide_False by naive_solver. done.
Qed.

Lemma filter_ext_elem {A} (P Q : A → Prop)
    `{!∀ x, Decision (P x)} `{!∀ x, Decision (Q x)} (l : list A) :
  (∀ x, x ∈ l → (P x ↔ Q x)) → filter P l = filter Q l.
Proof.
  induction l as [|x l IH]; intros Hl; [done|].
  rewrite !filter_cons, IH by (intros y Hy; apply Hl; by right).
  destruct (decide (P x)) as [Hp|Hp].
  - rewrite decide_True; [done|]. apply Hl; [by left|done].
  - rewrite decide_False; [done|]. intros Hq. apply Hp, Hl; [by left|done].
Qed.

(** Chunks that tile [a .. e] select, between them, every populated row
    with an id in [a .. e], once. *)
Lemma tiles_select rows l : ∀ a e,
  tiles a l e →
  l ≫= (λ r, select_chunk rows r.1 r.2)
  ≡ₚ filter (λ r, between a e (lr_id r) ∧ populated r) rows.
Proof.
  induction l as [|[x y] l IH]; intros a e Ht; simpl in Ht.
  - subst a. symmetry. apply Permutation_nil_r.
    induction rows as [|r rows IHr]; [done|].
    rewrite filter_cons, decide_False; [done|]. unfold between. lia.
  - destruct Ht as (-> & Hay & Hye & Ht).
    rewrite bind_cons, (IH _ _ Ht). cbn [fst snd]. unfold select_chunk.
    apply filter_app_disjoint; unfold between; intros r.
    + split.
      * intros [[? ?] ?].
        destruct (decide (lr_id r <= y)); [left|right]; (split; [lia|done]).
      * intros [[[? ?] ?]|[[? ?] ?]]; (split; [lia|done]).
    + intros [[? ?] _] [[? ?] _]. lia.
Qed.

(** The chunked scan reaches every populated row exactly once. *)
Lemma edges_of_all_rows rows step :
  1 <= step → edges_of rows step ≡ₚ filter populated rows ≫= explode_row.
Proof.
  intros Hstep. unfold edges_of.
  destruct (select_min_max_cases (lr_id <$> filter populated rows))
    as [[Hnil ->]|(mi & ma & Hmm & Hle)].
  - apply fmap_nil_inv in Hnil. by rewrite Hnil.
  - rewrite Hmm.
    destruct (loop_ranges_some mi ma step) as (l & -> & Ht); [done..|].
    cbn [default from_option id].
    assert (l ≫= chunk_edges rows
            = (l ≫= λ r, select_chunk rows r.1 r.2) ≫= explode_row) as ->.
    { clear. induction l as [|r l IH]; [done|].
      by rewrite !bind_cons, bind_app, IH. }
    rewrite (tiles_select rows l mi ma Ht).
    assert (filter (λ r, between mi ma (lr_id r) ∧ populated r) rows
            = filter populated rows) as ->; [|done].
    apply filter_ext_elem. intros r Hr. split; [naive_solver|].
    intros Hpop. split; [|done].
    apply (select_min_max_bounds _ _ _ Hmm), list_elem_of_fmap.
    exists r. split; [done|]. by apply list_elem_of_filter.
Qed.



End extraction.

(** ** The summary lookup *)

Section summary_lookup.
Import Sql Aggregator.

(** C10.  [get_material_usage_stats] with the empty list of ids does what
    it does with no list: it returns the statistics of every row of the
    usage summary. *)
Theorem usage_stats_empty_list w :
  get_material_usage_stats (Some []) w = get_material_usage_stats None w
  ∧ get_material_usage_stats (Some []) w
    = match van_material_usage_summary (van w) with
      | Some mus => Ok (stats_of <$> mus, w)
      | None => Err (NoSuchTable "van_material_usage_summary")
      end.
Proof.
  split; [reflexivity|].
  unfold get_material_usage_stats. cbn [truthy].
  rewrite run_bind. unfold select_from. cbn [tget tname T_usage_summary].
  by destruct (van_material_usage_summary (van w)).
Qed.

(** With ids given, only their rows are returned. *)
Lemma usage_stats_filtered w mus id ids :
  van_material_usage_summary (van w) = Some mus →
  get_material_usage_stats (Some (id :: ids)) w
  = Ok (stats_of <$> filter (λ kr, kr.1 ∈ id :: ids) mus, w).
Proof.
  intros Hmus. unfold get_material_usage_stats. cbn [truthy].
  rewrite run_bind. unfold select_from. cbn [tget tname T_usage_summary].
  by rewrite Hmus.
Qed.

End summary_lookup.

(** ** The properties on the small deployment *)

Section on_the_example.
Import Exploder Chunks Sql Aggregator Outcome Example.

#[local] Existing Instance toy_functions.

Lemma usage_summary_invariant_witness :
  ∃ mus,
    van_material_usage_summary
      (van (after rebuild_usage_summary with_project_views)) = Some mus
    ∧ (∀ id r, mus !! id = Some r →
         total_uses r
         = used_job_areas r + used_elevations r + used_project_views r)
    ∧ dom mus = dom (materials (src with_project_views))
    ∧ size mus = size (materials (src with_project_views)).
Proof.
  apply (usage_summary_invariant with_project_views).
  vm_compute. reflexivity.
Defined.

Lemma usage_summary_without_project_views_witness :
  rebuild_usage_summary without_project_views = Err (UnknownColumn "p.cnt").
Proof.
  apply (usage_summary_without_project_views without_project_views);
    reflexivity.
Defined.

(** Material 7 has no [modified]: its row has no [last_used], although
    the elevation source saw it on 2023-01-01. *)
Lemma last_used_greatest_witness :
  ∃ j e p mus r,
    van_jobareas_mat (van (after rebuild_usage_summary with_project_views))
      = Some j
    ∧ van_elev_mat (van (after rebuild_usage_summary with_project_views))
      = Some e
    ∧ van_pv_mat (van (after rebuild_usage_summary with_project_views))
      = Some p
    ∧ van_material_usage_summary
        (van (after rebuild_usage_summary with_project_views)) = Some mus
    ∧ mus !! 7 = Some r
    ∧ last_used r = None.
Proof.
  apply (last_used_greatest with_project_views
           (after rebuild_usage_summary with_project_views) 7
           (plain "oak panel" None)).
  - vm_compute. reflexivity.
  - vm_compute. reflexivity.
Defined.

Lemma unused_iff_zero_total_witness :
  ∃ mus un,
    van_material_usage_summary
      (van (after rebuild_usage_summary with_project_views)) = Some mus
    ∧ van_unused_materials
        (van (after rebuild_usage_summary with_project_views)) = Some un
    ∧ ∀ id, id ∈ dom un ↔ ∃ r, mus !! id = Some r ∧ total_uses r = 0.
Proof.
  apply (unused_iff_zero_total with_project_views).
  vm_compute. reflexivity.
Defined.

Lemma rebuild_all_idempotent_witness :
  ∃ w2 mus d1 d2,
    rebuild_all (later (after rebuild_all with_project_views)) = Ok (tt, w2)
    ∧ src w2 = src with_project_views
    ∧ van_material_usage_summary (van (after rebuild_all with_project_views))
      = Some mus
    ∧ van_material_usage_summary (van w2) = Some mus
    ∧ van_duplicate_materials (van (after rebuild_all with_project_views))
      = Some d1
    ∧ van_duplicate_materials (van w2) = Some d2
    ∧ without_snapshot <$> d1 = without_snapshot <$> d2.
Proof.
  apply (rebuild_all_idempotent with_project_views
           (after rebuild_all with_project_views)).
  - vm_compute. reflexivity.
  - vm_compute. reflexivity.
  - vm_compute. reflexivity.
Defined.

Lemma rebuild_all_probes_witness :
  ∃ new,
    probes (after rebuild_all with_project_views)
    = probes with_project_views ++ new
    ∧ new = [pv_probe (src with_project_views);
             pv_probe (src with_project_views);
             pv_probe (src with_project_views);
             {| p_table := "van_pv_mat"; p_column := "material_id";
                p_found := true |}]
    ∧ pv_column_probes new = 3%nat.
Proof.
  apply (rebuild_all_probes with_project_views).
  vm_compute. reflexivity.
Defined.

(** C9, as stated, on the example: the probes of one full rebuild ask for
    the project-view column three times, not once. *)
Lemma rebuild_all_probes_not_once :
  rebuild_all with_project_views
  = Ok (tt, after rebuild_all with_project_views)
  ∧ probes with_project_views = []
  ∧ pv_column_probes (probes (after rebuild_all with_project_views)) ≠ 1%nat.
Proof.
  split_and!; [vm_compute; reflexivity|reflexivity|].
  vm_compute. discriminate.
Qed.



End on_the_example.

(** * Further properties of the module *)

(** ** More on the chunk planner *)

Section chunk_planner_more.
Import Chunks.

(** X1.  With [step <= 0] and [start_id <= end_id] the generator never
    ends: whatever the number of passes allowed, the loop is still
    running. *)
Theorem loop_ranges_never_ends start_id end_id step :
  step <= 0 → start_id <= end_id →
  (∀ fuel, loop_ranges_from fuel start_id end_id step = None)
  ∧ _loop_ranges start_id end_id step = None.
Proof.
  intros Hstep Hle. split.
  - intros fuel. by apply loop_ranges_from_stuck.
  - by apply loop_ranges_from_stuck.
Qed.

Lemma loop_ranges_never_ends_witness :
  (∀ fuel, loop_ranges_from fuel 3 9 0 = None) ∧ _loop_ranges 3 9 0 = None.
Proof. apply (loop_ranges_never_ends 3 9 0); lia. Defined.

(** The chunks the loop yields from [a]: the [i]-th starts at
    [a + i * step] and ends [step - 1] further, or at [e] if that comes
    first; there are [(e - a) / step + 1] of them. *)
Lemma loop_ranges_from_shape fuel : ∀ a e step l,
  1 <= step → a <= e →
  loop_ranges_from fuel a e step = Some l →
  Z.of_nat (length l) = (e - a) `div` step + 1
  ∧ ∀ (i : nat) r, l !! i = Some r →
      r.1 = a + Z.of_nat i * step
      ∧ r.2 = Z.min (a + (Z.of_nat i + 1) * step - 1) e.
Proof.
  induction fuel as [|fuel IH]; intros a e step l Hstep Hae; simpl;
    rewrite decide_True by done; [done|].
  set (b := Z.min (a + step - 1) e).
  destruct (loop_ranges_from fuel (b + 1) e step) as [l'|] eqn:Hl'; [|done].
  intros [= <-]. destruct (decide (b + 1 <= e)) as [Hmore|Hlast].
  - destruct (IH _ _ _ _ Hstep Hmore Hl') as [Hlen Hith].
    assert (b = a + step - 1) as Hb by (unfold b; lia).
    split.
    + cbn [length]. rewrite Nat2Z.inj_succ, Hlen, Hb.
      replace (e - a) with ((e - (a + step - 1 + 1)) + 1 * step) by lia.
      rewrite Z.div_add by lia. lia.
    + intros [|i] r; cbn [lookup list_lookup].
      * intros [= <-]. cbn [fst snd]. fold b. lia.
      * intros Hr. destruct (Hith i r Hr) as [-> ->]. rewrite Hb. split; [lia|].
        f_equal. lia.
  - rewrite loop_ranges_from_empty in Hl' by lia. injection Hl' as <-.
    assert (b = e) as Hb by (unfold b; lia).
    split.
    + cbn [length]. rewrite Z.div_small by lia. lia.
    + intros [|i] r; cbn [lookup list_lookup]; [|done].
      intros [= <-]. cbn [fst snd]. fold b. lia.
Qed.

(** X2.  For [start_id <= end_id] and [step >= 1] the planner yields
    [(end_id - start_id) / step + 1] chunks; the [i]-th one (from 0) is
    [start_id + i * step .. start_id + (i + 1) * step - 1], cut at
    [end_id]: every chunk but the last is exactly [step] wide. *)
Theorem loop_ranges_shape start_id end_id step :
  start_id <= end_id → 1 <= step →
  ∃ l, _loop_ranges start_id end_id step = Some l
    ∧ Z.of_nat (length l) = (end_id - start_id) `div` step + 1
    ∧ (∀ (i : nat) r, l !! i = Some r →
         r.1 = start_id + Z.of_nat i * step
         ∧ r.2 = Z.min (start_id + (Z.of_nat i + 1) * step - 1) end_id)
    ∧ (∀ (i : nat) r, l !! i = Some r → (S i < length l)%nat →
         width r = step).
Proof.
  intros Hle Hstep.
  destruct (loop_ranges_some start_id end_id step) as (l & Hl & _); [done..|].
  exists l. split; [done|].
  destruct (loop_ranges_from_shape _ _ _ _ _ Hstep Hle Hl) as [Hlen Hith].
  split_and!; [done|done|].
  intros i r Hr Hi. destruct (Hith i r Hr) as [H1 H2].
  unfold width. rewrite H1, H2.
  assert (Z.of_nat i + 1 < (end_id - start_id) `div` step + 1) as Hlt by lia.
  assert (step * ((end_id - start_id) `div` step) <= end_id - start_id)
    by (apply Z.mul_div_le; lia).
  nia.
Qed.

Lemma loop_ranges_shape_witness :
  ∃ l, _loop_ranges 1 10 3 = Some l
    ∧ Z.of_nat (length l) = (10 - 1) `div` 3 + 1
    ∧ (∀ (i : nat) r, l !! i = Some r →
         r.1 = 1 + Z.of_nat i * 3
         ∧ r.2 = Z.min (1 + (Z.of_nat i + 1) * 3 - 1) 10)
    ∧ (∀ (i : nat) r, l !! i = Some r → (S i < length l)%nat →
         width r = 3).
Proof. apply (loop_ranges_shape 1 10 3); lia. Defined.

End chunk_planner_more.

(** ** More on the list exploder *)

Section list_exploder_more.
Import Exploder.

Lemma digit_value_range c : is_digit c = true → 0 <= digit_value c <= 9.
Proof.
  destruct c as [[] [] [] [] [] [] [] []]; vm_compute; (congruence || intuition congruence).
Qed.

Lemma int_acc_nonneg p : ∀ acc,
  all_digits p = true → 0 <= acc → 0 <= int_acc acc p.
Proof.
  induction p as [|c p IH]; intros acc; simpl; [done|].
  intros [Hc Hp]%andb_true_iff Hacc. apply IH; [done|].
  pose proof (digit_value_range c Hc). lia.
Qed.

Lemma encoded_ints_nonneg v x : x ∈ encoded_ints v → 0 <= x.
Proof.
  unfold encoded_ints. intros (p & -> & Hp)%list_elem_of_fmap.
  apply list_elem_of_filter in Hp as [_ (tok & -> & _)%list_elem_of_fmap].
  apply int_acc_nonneg; [apply all_digits_digits_of|done].
Qed.

Lemma explode_csv_nonneg_aux value x : x ∈ _explode_csv value → 0 <= x.
Proof.
  destruct value as [v|]; [|by intros ?%elem_of_nil].
  rewrite explode_csv_encoded, elem_of_first_occurrences.
  apply encoded_ints_nonneg.
Qed.

(** X3.  [_explode_csv] never returns a negative id: a minus sign is
    dropped with the rest of what is not a digit or a comma. *)
Theorem explode_csv_nonneg value x : x ∈ _explode_csv value → 0 <= x.
Proof. apply explode_csv_nonneg_aux. Qed.

Lemma explode_csv_nonneg_witness : 0 <= 5.
Proof.
  apply (explode_csv_nonneg (Some "-5,x") 5). vm_compute. by left.
Defined.

Lemma split_comma_app_aux v1 v2 :
  split_comma (v1 +:+ String ","%char v2) = split_comma v1 ++ split_comma v2.
Proof.
  induction v1 as [|c v1 IH]; [done|].
  change (String c v1 +:+ String ","%char v2)
    with (String c (v1 +:+ String ","%char v2)).
  cbn [split_comma]. destruct (is_comma c).
  - by rewrite IH.
  - rewrite IH. destruct (split_comma_cons v1) as (h & t & ->). done.
Qed.

Lemma split_comma_app v1 v2 :
  split_comma (v1 +:+ "," +:+ v2) = split_comma v1 ++ split_comma v2.
Proof. apply split_comma_app_aux. Qed.

Lemma encoded_ints_app v1 v2 :
  encoded_ints (v1 +:+ "," +:+ v2) = encoded_ints v1 ++ encoded_ints v2.
Proof.
  unfold encoded_ints. by rewrite split_comma_app, fmap_app, filter_app, fmap_app.
Qed.

Lemma filter_ne_notin (x : Z) (l k : list Z) :
  filter (λ y, y ∉ x :: k) l = filter (λ y, y ∉ k) (filter (λ y, y ≠ x) l).
Proof.
  induction l as [|y l IH]; [done|].
  rewrite !filter_cons. destruct (decide (y ≠ x)) as [Hne|Heq].
  - rewrite filter_cons. destruct (decide (y ∉ k)) as [Hk|Hk].
    + rewrite decide_True by (rewrite not_elem_of_cons; done). by rewrite IH.
    + rewrite decide_False by (rewrite not_elem_of_cons; naive_solver). done.
  - rewrite decide_False by (rewrite not_elem_of_cons; naive_solver). done.
Qed.

Lemma filter_filter_comm (P Q : Z → Prop)
    `{!∀ x, Decision (P x)} `{!∀ x, Decision (Q x)} (l : list Z) :
  filter P (filter Q l) = filter Q (filter P l).
Proof.
  induction l as [|y l IH]; [done|].
  rewrite !filter_cons.
  destruct (decide (P y)), (decide (Q y)); rewrite ?filter_cons;
    rewrite ?decide_True by done; rewrite ?decide_False by done;
    by rewrite IH.
Qed.

Lemma first_occurrences_app a b :
  first_occurrences (a ++ b)
  = first_occurrences a ++ filter (λ y, y ∉ a) (first_occurrences b).
Proof.
  induction a as [|x a IH]; cbn [app first_occurrences].
  - symmetry. clear. induction (first_occurrences b) as [|y l IH]; [done|].
    rewrite filter_cons, decide_True by apply not_elem_of_nil. by rewrite IH.
  - rewrite IH, filter_app. do 2 f_equal.
    rewrite filter_ne_notin. apply filter_filter_comm.
Qed.

Lemma first_occurrences_NoDup l : NoDup l → first_occurrences l = l.
Proof.
  induction 1 as [|x l Hx Hl IH]; [done|].
  cbn [first_occurrences]. rewrite IH. f_equal.
  clear -Hx. induction l as [|y l IH]; [done|].
  apply not_elem_of_cons in Hx as [Hne Hx].
  rewrite filter_cons, decide_True by done. by rewrite IH.
Qed.

(** X4.  Exploding two values joined by a comma gives the ids of the first
    value followed by the ids of the second that the first did not have. *)
Theorem explode_csv_joined v1 v2 :
  _explode_csv (Some (v1 +:+ "," +:+ v2))
  = _explode_csv (Some v1)
    ++ filter (λ y, y ∉ _explode_csv (Some v1)) (_explode_csv (Some v2)).
Proof.
  rewrite !explode_csv_encoded, encoded_ints_app, first_occurrences_app.
  f_equal. apply filter_ext_elem. intros x _.
  by rewrite elem_of_first_occurrences.
Qed.

Lemma of_N_to_N_nonneg (l : list Z) :
  (∀ x, x ∈ l → 0 <= x) → Z.of_N <$> (Z.to_N <$> l) = l.
Proof.
  induction l as [|x l IH]; intros Hl; [done|].
  rewrite !fmap_cons, IH by (intros y Hy; apply Hl; by right).
  rewrite Z2N.id by (apply Hl; by left). done.
Qed.

(** X5.  Writing the result of [_explode_csv] back as a comma separated
    list and exploding that gives the same result. *)
Theorem explode_csv_round_trip value :
  _explode_csv (Some (render_csv (Z.to_N <$> _explode_csv value)))
  = _explode_csv value.
Proof.
  rewrite explode_csv_encoded, encoded_ints_render_csv.
  rewrite of_N_to_N_nonneg by apply explode_csv_nonneg_aux.
  apply first_occurrences_NoDup, explode_csv_NoDup.
Qed.

End list_exploder_more.

(** ** More on the helper tables and the extraction stage *)

(** One statement of a run, for the sections below. *)
Ltac run_stmt lem :=
  rewrite ?run_bind; erewrite lem by reflexivity; cbv beta iota.

Ltac tables_simpl :=
  cbn [Sql.tset Sql.tget Sql.T_tpe_extracted Sql.T_pv_extracted
       Sql.T_jobareas_mat Sql.T_elev_mat Sql.T_pv_mat Sql.T_usage_summary
       Sql.T_unused Sql.T_duplicates Outcome.ensure
       Sql.van_tpe_materials_extracted Sql.van_pv_materials_extracted
       Sql.van_jobareas_mat Sql.van_elev_mat Sql.van_pv_mat
       Sql.van_material_usage_summary Sql.van_unused_materials
       Sql.van_duplicate_materials].

Section extraction_more.
Import Exploder Chunks Sql Aggregator Outcome Example.

#[local] Existing Instance toy_functions.

(** X6.  [_ensure_tables] never fails and never empties a table: a helper
    table that exists keeps its rows, a missing one is created empty, the
    two project-view tables only when [has_pv] holds; nothing else
    changes, and a second call changes nothing at all. *)
Theorem ensure_tables_keeps_rows has_pv w :
  ∃ w', _ensure_tables has_pv w = Ok (tt, w')
    ∧ _ensure_tables has_pv w' = Ok (tt, w')
    ∧ src w' = src w ∧ probes w' = probes w ∧ now_calls w' = now_calls w
    ∧ van_tpe_materials_extracted (van w')
      = Some (default [] (van_tpe_materials_extracted (van w)))
    ∧ van_jobareas_mat (van w') = Some (default ∅ (van_jobareas_mat (van w)))
    ∧ van_elev_mat (van w') = Some (default ∅ (van_elev_mat (van w)))
    ∧ van_material_usage_summary (van w')
      = Some (default ∅ (van_material_usage_summary (van w)))
    ∧ van_unused_materials (van w')
      = Some (default ∅ (van_unused_materials (van w)))
    ∧ van_duplicate_materials (van w')
      = Some (default [] (van_duplicate_materials (van w)))
    ∧ van_pv_materials_extracted (van w')
      = (if has_pv
         then Some (default [] (van_pv_materials_extracted (van w)))
         else van_pv_materials_extracted (van w))
    ∧ van_pv_mat (van w')
      = (if has_pv then Some (default ∅ (van_pv_mat (van w)))
         else van_pv_mat (van w)).
Proof.
  destruct w as [s h pr ck n]. rewrite ensure_tables_run.
  eexists. split; [reflexivity|]. rewrite ensure_tables_run.
  split_and!; try reflexivity.
  do 2 f_equal. destruct has_pv, h as [[] [] [] [] [] [] [] []]; reflexivity.
Qed.








(** X10.  With [step_rows <= 0] and at least one populated elevation row
    the extraction never returns: the chunk loop it runs has no end. *)
Theorem refresh_never_returns step w r :
  step <= 0 → r ∈ tmp_project_elevations (src w) → populated r →
  refresh_extracted_tables step w = Err NeverReturns.
Proof.
  intros Hstep Hr Hpop. destruct w as [s h pr ck n]. cbn [src] in Hr.
  unfold refresh_extracted_tables.
  run_stmt col_exists_pv. run_stmt ensure_tables_run.
  run_stmt (truncate_run T_tpe_extracted).
  assert (∀ h', extract_source tmp_project_elevations T_tpe_extracted step
                  (Build_world s h' (pr ++ [pv_probe s]) ck n)
                = Err NeverReturns) as Hex.
  { intros h'. unfold extract_source. run_stmt @query_run.
    destruct (select_min_max_cases
                (lr_id <$> filter populated (tmp_project_elevations s)))
      as [[Hnil _]|(mi & ma & -> & Hle)].
    - apply fmap_nil_inv in Hnil.
      assert (r ∈ filter populated (tmp_project_elevations s)) as Hin
        by by apply list_elem_of_filter.
      rewrite Hnil in Hin. by apply elem_of_nil in Hin.
    - unfold for_ranges, _loop_ranges.
      by rewrite loop_ranges_from_stuck. }
  destruct (has_pv_column s); cbn [when].
  - run_stmt (truncate_run T_pv_extracted). rewrite run_bind, Hex. done.
  - run_stmt @ret_run. rewrite run_bind, Hex. done.
Qed.

Lemma refresh_never_returns_witness :
  refresh_extracted_tables 0 with_project_views = Err NeverReturns.
Proof.
  apply (refresh_never_returns 0 with_project_views elevation_10).
  - lia.
  - vm_compute. by left.
  - vm_compute. discriminate.
Defined.

End extraction_more.

(** ** What the aggregates hold *)

Section aggregates.
Import Exploder Chunks Sql Aggregator Outcome Uses.

Lemma sql_max_comm a b : sql_max a b = sql_max b a.
Proof. destruct a, b; cbn; f_equal; lia. Qed.

Lemma sql_max_assoc a b c : sql_max a (sql_max b c) = sql_max (sql_max a b) c.
Proof. destruct a, b, c; cbn; f_equal; lia. Qed.

Lemma sql_max_None_r a : sql_max a None = a.
Proof. by destruct a. Qed.

Lemma latest_cons d ds : latest (d :: ds) = sql_max d (latest ds).
Proof. reflexivity. Qed.

#[local] Instance latest_Permutation : Proper ((≡ₚ) ==> (=)) latest.
Proof.
  intros l1 l2 Hp. induction Hp as [|x l1 l2 _ IH|x y l|l1 l2 l3 _ IH1 _ IH2].
  - done.
  - by rewrite !latest_cons, IH.
  - rewrite !latest_cons, !sql_max_assoc. f_equal. apply sql_max_comm.
  - by rewrite IH1.
Qed.

Lemma foldl_sql_max ds : ∀ init,
  foldl sql_max init ds = sql_max init (latest ds).
Proof.
  induction ds as [|d ds IH]; intros init.
  - cbn. by rewrite sql_max_None_r.
  - cbn [foldl]. by rewrite IH, latest_cons, sql_max_assoc.
Qed.

Lemma agg_of_Permutation ds ds' : ds ≡ₚ ds' → agg_of ds = agg_of ds'.
Proof.
  intros Hp. unfold agg_of. destruct ds as [|d ds], ds' as [|d' ds'].
  - done.
  - by apply Permutation_nil_cons in Hp.
  - symmetry in Hp. by apply Permutation_nil_cons in Hp.
  - by rewrite Hp.
Qed.

(** *** GROUP BY material_id *)

Lemma group_step_lookup acc e mid :
  group_step acc e !! mid
  = if decide (material_id e = mid)
    then Some {| cnt := default 0 (cnt <$> acc !! mid) + 1;
                 last_dt := sql_max (acc !! mid ≫= last_dt) (e_modified e) |}
    else acc !! mid.
Proof.
  unfold group_step. case_decide as Hm.
  - subst mid. destruct (acc !! material_id e) as [g|];
      by rewrite lookup_insert_eq.
  - destruct (acc !! material_id e) as [g|]; by rewrite lookup_insert_ne.
Qed.

Lemma foldl_group_step_lookup es : ∀ acc mid,
  foldl group_step acc es !! mid
  = match filter (λ e, material_id e = mid) es with
    | [] => acc !! mid
    | es' =>
        Some {| cnt := default 0 (cnt <$> acc !! mid) + Z.of_nat (length es');
                last_dt := sql_max (acc !! mid ≫= last_dt)
                                   (latest (e_modified <$> es')) |}
    end.
Proof.
  induction es as [|e es IH]; intros acc mid; [done|].
  cbn [foldl]. rewrite IH, group_step_lookup, filter_cons.
  destruct (decide (material_id e = mid)) as [Hm|Hm].
  - destruct (filter (λ e0, material_id e0 = mid) es) as [|e' es'] eqn:Hf.
    + cbn. by rewrite sql_max_None_r.
    + cbn [default from_option fmap option_fmap option_map id mbind
           option_bind cnt last_dt length fmap list_fmap latest foldr].
      f_equal. f_equal; [lia|]. by rewrite !sql_max_assoc.
  - done.
Qed.

(** The aggregate of a list of edges, material by material. *)
Lemma group_by_material_id_lookup es mid :
  group_by_material_id es !! mid
  = agg_of (e_modified <$> filter (λ e, material_id e = mid) es).
Proof.
  unfold group_by_material_id. rewrite foldl_group_step_lookup.
  rewrite lookup_empty. unfold agg_of.
  destruct (filter (λ e, material_id e = mid) es) as [|e' es']; [done|].
  cbn. rewrite length_fmap. do 2 f_equal.
Qed.

Lemma filter_explode_row r mid :
  e_modified <$> filter (λ e, material_id e = mid) (explode_row r)
  = if decide (mid ∈ _explode_csv (existing_material_ids r))
    then [lr_modified r] else [].
Proof.
  unfold explode_row.
  generalize (explode_csv_NoDup (existing_material_ids r)).
  generalize (_explode_csv (existing_material_ids r)). intros l Hnd.
  induction Hnd as [|x l Hx Hl IH]; [done|].
  rewrite fmap_cons, filter_cons.
  destruct (decide (x = mid)) as [->|Hne].
  - rewrite decide_True by done. rewrite fmap_cons, IH.
    rewrite (decide_True (P := mid ∈ mid :: l)) by by left.
    by rewrite decide_False by done.
  - rewrite decide_False by done. rewrite IH.
    destruct (decide (mid ∈ l)) as [Hin|Hin].
    + rewrite decide_True by by right. done.
    + rewrite decide_False; [done|]. rewrite not_elem_of_cons. naive_solver.
Qed.

(** The edges of a material among the exploded rows: one per populated
    row that names it. *)
Lemma filter_exploded_rows rows mid :
  e_modified <$> filter (λ e, material_id e = mid)
                   (filter populated rows ≫= explode_row)
  = lr_modified <$> rows_naming rows mid.
Proof.
  unfold rows_naming. induction rows as [|r rows IH]; [done|].
  rewrite !filter_cons. destruct (decide (populated r)) as [Hp|Hp].
  - rewrite bind_cons, filter_app, fmap_app, IH, filter_explode_row.
    destruct (decide (mid ∈ _explode_csv (existing_material_ids r))).
    + rewrite decide_True by done. done.
    + rewrite decide_False by naive_solver. done.
  - rewrite decide_False by naive_solver. done.
Qed.

(** The aggregate of the edges a chunked scan extracts. *)
Lemma group_edges_of rows step mid :
  1 <= step →
  group_by_material_id (edges_of rows step) !! mid
  = agg_of (lr_modified <$> rows_naming rows mid).
Proof.
  intros Hstep. rewrite group_by_material_id_lookup.
  rewrite <- filter_exploded_rows. apply agg_of_Permutation.
  by rewrite edges_of_all_rows.
Qed.

(** *** The job-area aggregate *)

Lemma omap_cons_match {A B} (f : A → option B) x (l : list A) :
  omap f (x :: l)
  = match f x with Some y => y :: omap f l | None => omap f l end.
Proof. reflexivity. Qed.

Lemma select_jam_chunk_filter s a b :
  select_jam_chunk s a b
  = omap (resolved_row s)
         (filter (λ r, between a b (jam_id r)) (job_area_materials s)).
Proof.
  unfold select_jam_chunk.
  induction (job_area_materials s) as [|r rows IH]; [done|].
  rewrite filter_cons, omap_cons_match.
  destruct (decide (between a b (jam_id r))) as [Hb|Hb].
  - rewrite omap_cons_match, <- IH.
    unfold resolved_row, resolved_material.
    destruct (material_option_id r) as [oid|]; [|done]. cbn.
    destruct (material_options s !! oid) as [[mid|]|]; done.
  - by rewrite <- IH.
Qed.

(** Chunks that tile [a .. e] select, between them, every row with an id
    in [a .. e], once. *)
Lemma tiles_filter {A} (idf : A → Z) (rows : list A) l : ∀ a e,
  tiles a l e →
  l ≫= (λ c, filter (λ x, between c.1 c.2 (idf x)) rows)
  ≡ₚ filter (λ x, between a e (idf x)) rows.
Proof.
  induction l as [|[x y] l IH]; intros a e Ht; simpl in Ht.
  - subst a. symmetry. apply Permutation_nil_r.
    induction rows as [|r rows IHr]; [done|].
    rewrite filter_cons, decide_False; [done|]. unfold between. lia.
  - destruct Ht as (-> & Hay & Hye & Ht).
    rewrite bind_cons, (IH _ _ Ht). cbn [fst snd].
    apply filter_app_disjoint; unfold between; intros r; lia.
Qed.

Lemma omap_bind_chunks {A B C} (f : A → option B) (h : C → list A)
    (l : list C) :
  l ≫= (λ c, omap f (h c)) = omap f (l ≫= h).
Proof.
  induction l as [|c l IH]; [done|].
  by rewrite !bind_cons, omap_app, IH.
Qed.

Lemma foldl_chunks {A B C} (f : A → B → A) (g : C → list B) (l : list C) :
  ∀ acc, foldl (λ acc c, foldl f acc (g c)) acc l = foldl f acc (l ≫= g).
Proof.
  induction l as [|c l IH]; intros acc; [done|].
  cbn [foldl]. by rewrite IH, bind_cons, foldl_app.
Qed.

Lemma filter_all {A} (P : A → Prop) `{!∀ x, Decision (P x)} (l : list A) :
  (∀ x, x ∈ l → P x) → filter P l = l.
Proof.
  induction l as [|x l IH]; intros Hl; [done|].
  rewrite filter_cons, decide_True by (apply Hl; by left).
  rewrite IH; [done|]. intros y Hy. apply Hl. by right.
Qed.

(** The rows the chunked scan of [_agg_job_areas] reads are the rows of
    the whole join, each once. *)
Lemma select_jam_chunks s l mi ma :
  select_min_max (jam_id <$> job_area_materials s) = (Some mi, Some ma) →
  tiles mi l ma →
  l ≫= (λ c, select_jam_chunk s c.1 c.2)
  ≡ₚ omap (resolved_row s) (job_area_materials s).
Proof.
  intros Hmm Ht.
  rewrite (list_bind_ext _ (λ c, omap (resolved_row s)
             (filter (λ r, between c.1 c.2 (jam_id r)) (job_area_materials s)))
             l l) by (intros; try apply select_jam_chunk_filter; done).
  rewrite omap_bind_chunks, (tiles_filter jam_id _ l mi ma Ht).
  rewrite filter_all; [done|]. intros r Hr.
  apply (select_min_max_bounds _ _ _ Hmm), list_elem_of_fmap. by exists r.
Qed.

Lemma jam_step_counts acc r mid :
  counts (jam_step acc r) !! mid
  = if decide (r.1.2 = mid)
    then Some (default 0 (counts acc !! mid) + 1)
    else counts acc !! mid.
Proof.
  unfold jam_step.
  assert (∀ d, counts {| counts := <[r.1.2 := default 0 (counts acc !! r.1.2) + 1]>
                                      (counts acc); last_dts := d |} !! mid
               = if decide (r.1.2 = mid)
                 then Some (default 0 (counts acc !! mid) + 1)
                 else counts acc !! mid) as Hc.
  { intros d. cbn [counts]. case_decide as Hm.
    - subst mid. by rewrite lookup_insert_eq.
    - by rewrite lookup_insert_ne. }
  destruct r.2 as [dt|]; [|apply Hc].
  destruct (last_dts acc !! r.1.2) as [prev|]; [|apply Hc].
  destruct (decide (prev < dt)); apply Hc.
Qed.

Lemma jam_step_last_dts acc r mid :
  last_dts (jam_step acc r) !! mid
  = if decide (r.1.2 = mid)
    then sql_max (last_dts acc !! mid) r.2
    else last_dts acc !! mid.
Proof.
  destruct r as [[i m] [dt|]]; unfold jam_step; cbv zeta; cbn [fst snd].
  - destruct (last_dts acc !! m) as [prev|] eqn:Hprev;
      unfold datetime in *.
    + destruct (decide (prev < dt)) as [Hlt|Hge]; cbn [last_dts].
      * case_decide as Hm.
        -- subst mid. rewrite lookup_insert_eq, Hprev. cbn. f_equal. lia.
        -- by rewrite lookup_insert_ne.
      * case_decide as Hm; [|done].
        subst mid. rewrite Hprev. cbn. f_equal. lia.
    + cbn [last_dts]. case_decide as Hm.
      * subst mid. by rewrite lookup_insert_eq, Hprev.
      * by rewrite lookup_insert_ne.
  - cbn [last_dts]. case_decide; [|done]. by rewrite sql_max_None_r.
Qed.

Lemma foldl_jam_step_counts rs : ∀ acc mid,
  counts (foldl jam_step acc rs) !! mid
  = match filter (λ r, r.1.2 = mid) rs with
    | [] => counts acc !! mid
    | rs' => Some (default 0 (counts acc !! mid) + Z.of_nat (length rs'))
    end.
Proof.
  induction rs as [|r rs IH]; intros acc mid; [done|].
  cbn [foldl]. rewrite IH, jam_step_counts, filter_cons.
  destruct (decide (r.1.2 = mid)) as [Hm|Hm]; [|done].
  destruct (filter (λ r0, r0.1.2 = mid) rs) as [|r' rs']; [done|].
  cbn [default from_option id length]. f_equal. lia.
Qed.

Lemma foldl_jam_step_last_dts rs : ∀ acc mid,
  last_dts (foldl jam_step acc rs) !! mid
  = sql_max (last_dts acc !! mid)
            (latest (snd <$> filter (λ r, r.1.2 = mid) rs)).
Proof.
  induction rs as [|r rs IH]; intros acc mid.
  - cbn. by rewrite sql_max_None_r.
  - cbn [foldl]. rewrite IH, jam_step_last_dts, filter_cons.
    destruct (decide (r.1.2 = mid)) as [Hm|Hm]; [|done].
    by rewrite fmap_cons, latest_cons, sql_max_assoc.
Qed.

Lemma jam_rows_lookup rs mid :
  jam_rows (foldl jam_step {| counts := ∅; last_dts := ∅ |} rs) !! mid
  = agg_of (snd <$> filter (λ r, r.1.2 = mid) rs).
Proof.
  unfold jam_rows. rewrite map_lookup_imap.
  rewrite foldl_jam_step_counts, foldl_jam_step_last_dts.
  cbn [counts last_dts]. rewrite !lookup_empty.
  destruct (filter (λ r, r.1.2 = mid) rs) as [|r' rs']; [done|].
  cbn. rewrite length_fmap. do 2 f_equal.
Qed.

Lemma resolved_rows_uses s mid :
  snd <$> filter (λ r, r.1.2 = mid)
            (omap (resolved_row s) (job_area_materials s))
  = job_area_uses s mid.
Proof.
  unfold job_area_uses.
  induction (job_area_materials s) as [|r rows IH]; [done|].
  rewrite filter_cons, omap_cons_match.
  unfold resolved_row at 1.
  destruct (resolved_material s r) as [m|] eqn:Hm; cbn [mbind option_bind].
  - rewrite filter_cons. cbn [fst snd].
    destruct (decide (m = mid)) as [->|Hne].
    + rewrite decide_True by done. by rewrite !fmap_cons, IH.
    + rewrite decide_False by congruence. done.
  - rewrite decide_False by done. done.
Qed.

(** The content of [van_jobareas_mat] after [_agg_job_areas]. *)
Lemma job_areas_of_lookup s step mid :
  1 <= step → job_areas_of s step !! mid = agg_of (job_area_uses s mid).
Proof.
  intros Hstep. unfold job_areas_of.
  destruct (select_min_max_cases (jam_id <$> job_area_materials s))
    as [[Hnil ->]|(mi & ma & Hmm & Hle)].
  - apply fmap_nil_inv in Hnil. unfold job_area_uses. by rewrite Hnil.
  - rewrite Hmm.
    destruct (loop_ranges_some mi ma step) as (l & -> & Ht); [done..|].
    cbn [default from_option id].
    rewrite (foldl_chunks jam_step (λ c, select_jam_chunk s c.1 c.2)).
    rewrite jam_rows_lookup, <- resolved_rows_uses.
    apply agg_of_Permutation.
    by rewrite (select_jam_chunks s l mi ma Hmm Ht).
Qed.

End aggregates.

(** ** The aggregates and the summary, in terms of the source tables *)

Section counts.
Import Exploder Chunks Sql Aggregator Outcome Uses Example.

Lemma agg_of_count ds : COALESCE (cnt <$> agg_of ds) 0 = Z.of_nat (length ds).
Proof. by destruct ds. Qed.

(** X11.  [_agg_job_areas] replaces [van_jobareas_mat] by one row for every
    material that some association row leads to through
    [material_options]: [cnt] is the number of those rows and [last_dt]
    the latest of their non-null [updated] (NULL when all are NULL).  It
    does not create the table: when the table is missing it fails. *)
Theorem agg_job_areas_counts step w :
  1 <= step →
  match van_jobareas_mat (van w) with
  | Some _ =>
      ∃ w' t, _agg_job_areas step w = Ok (tt, w')
        ∧ src w' = src w
        ∧ van_jobareas_mat (van w') = Some t
        ∧ ∀ mid, t !! mid = agg_of (job_area_uses (src w) mid)
  | None => _agg_job_areas step w = Err (NoSuchTable "van_jobareas_mat")
  end.
Proof.
  intros Hstep. destruct w as [s h pr ck n]. cbn [src van].
  destruct (van_jobareas_mat h) as [t|] eqn:Ht.
  - rewrite (agg_job_areas_run step t) by done.
    do 2 eexists. split_and!; [reflexivity|reflexivity| |].
    + cbn [van]. by destruct h.
    + intros mid. by apply job_areas_of_lookup.
  - unfold _agg_job_areas. run_stmt @query_run.
    destruct (select_min_max_cases (jam_id <$> job_area_materials s))
      as [[_ ->]|(mi & ma & -> & Hle)].
    + unfold truncate_table. cbn [van tget T_jobareas_mat]. by rewrite Ht.
    + destruct (loop_ranges_some mi ma step) as (l & -> & _); [done..|].
      run_stmt for_fold_jam. rewrite run_bind.
      unfold truncate_table. cbn [van tget T_jobareas_mat]. by rewrite Ht.
Qed.

Lemma agg_job_areas_counts_witness :
  _agg_job_areas 5000 without_project_views
  = Err (NoSuchTable "van_jobareas_mat").
Proof. apply (agg_job_areas_counts 5000 without_project_views). lia. Defined.

(** X12.  [rebuild_usage_summary] completes exactly when there is a
    project-view aggregate to join: [project_views] has the id-list
    column, or a table [van_pv_mat] is there from an earlier rebuild. *)
Theorem usage_summary_completes_iff w :
  (∃ w', rebuild_usage_summary w = Ok (tt, w'))
  ↔ is_Some (project_views (src w)) ∨ is_Some (van_pv_mat (van w)).
Proof.
  rewrite usage_summary_run.
  unfold usage_summary_outcome, pv_mat_after, has_pv_column.
  case_bool_decide as Hcol.
  - split; [by left|by eexists].
  - destruct (van_pv_mat (van w)) as [p|].
    + split; [right; by eexists|by eexists].
    + split; [by intros [? ?]|]. intros [?|[? ?]]; done.
Qed.

(** X13.  With the column absent and a table [van_pv_mat] left by an
    earlier rebuild, [rebuild_usage_summary] completes, leaves that table
    as it found it, and takes the project-view count of every summary row
    from it (0 for a material it does not list), whatever the sources
    hold. *)
Theorem left_pv_mat_is_joined w p :
  project_views (src w) = None → van_pv_mat (van w) = Some p →
  ∃ w' mus,
    rebuild_usage_summary w = Ok (tt, w')
    ∧ van_pv_mat (van w') = Some p
    ∧ van_material_usage_summary (van w') = Some mus
    ∧ dom mus = dom (materials (src w))
    ∧ ∀ id r, mus !! id = Some r →
        used_project_views r = COALESCE (cnt <$> p !! id) 0.
Proof.
  intros Hcol Hp. rewrite usage_summary_run.
  unfold usage_summary_outcome, pv_mat_after, has_pv_column.
  rewrite Hcol, Hp.
  rewrite bool_decide_eq_false_2 by (by intros [? ?]).
  do 2 eexists. split_and!; [reflexivity..| |].
  - apply summary_of_dom.
  - intros id r. rewrite summary_of_lookup.
    by intros (m & _ & ->)%fmap_Some_1.
Qed.

Lemma left_pv_mat_is_joined_witness :
  ∃ w' mus,
    rebuild_usage_summary with_left_pv_mat = Ok (tt, w')
    ∧ van_pv_mat (van w')
      = Some {[ 9 := {| cnt := 4; last_dt := Some 900 |} ]}
    ∧ van_material_usage_summary (van w') = Some mus
    ∧ dom mus = dom (materials (src with_left_pv_mat))
    ∧ ∀ id r, mus !! id = Some r →
        used_project_views r
        = COALESCE (cnt <$> ({[ 9 := {| cnt := 4; last_dt := Some 900 |} ]}
                             : gmap Z agg) !! id) 0.
Proof.
  apply (left_pv_mat_is_joined with_left_pv_mat
           {[ 9 := {| cnt := 4; last_dt := Some 900 |} ]}); reflexivity.
Defined.

(** X14.  Every row of the unused snapshot copies [last_used] from the
    summary row of a material with no use, carries the one NOW() of the
    statement that took the snapshot, and has [reason_all_unused] set. *)
Theorem unused_rows w w' :
  rebuild_usage_summary w = Ok (tt, w') →
  ∃ mus un,
    van_material_usage_summary (van w') = Some mus
    ∧ van_unused_materials (van w') = Some un
    ∧ now_calls w' = S (now_calls w)
    ∧ ∀ id u, un !! id = Some u →
        ∃ r, mus !! id = Some r ∧ total_uses r = 0
             ∧ u_last_used u = last_used r
             ∧ snapshot_at u = clock w (now_calls w)
             ∧ reason_all_unused u = true.
Proof.
  rewrite usage_summary_run. unfold usage_summary_outcome.
  destruct (pv_mat_after (src w) (van w)) as [p|]; [|done].
  intros [= <-]. do 2 eexists. split_and!; [reflexivity..|].
  intros id u. unfold unused_of. rewrite lookup_fmap.
  intros (r & Hf & ->)%fmap_Some_1.
  apply map_lookup_filter_Some in Hf as [Hr Hz]. by exists r.
Qed.

Lemma unused_rows_witness :
  ∃ mus un,
    van_material_usage_summary
      (van (after rebuild_usage_summary with_project_views)) = Some mus
    ∧ van_unused_materials
        (van (after rebuild_usage_summary with_project_views)) = Some un
    ∧ now_calls (after rebuild_usage_summary with_project_views)
      = S (now_calls with_project_views)
    ∧ ∀ id u, un !! id = Some u →
        ∃ r, mus !! id = Some r ∧ total_uses r = 0
             ∧ u_last_used u = last_used r
             ∧ snapshot_at u
               = clock with_project_views (now_calls with_project_views)
             ∧ reason_all_unused u = true.
Proof.
  apply (unused_rows with_project_views). vm_compute. reflexivity.
Defined.

(** X15.  Called on its own, [rebuild_usage_summary] recounts the job
    areas from the source tables, but takes the elevation count of a
    material from the edge table as it finds it: the number of edges that
    name the material, none when the table was not there.  It does not
    read [tmp_project_elevations] and leaves the edges as they are. *)
Theorem usage_summary_reads_edges w w' id :
  rebuild_usage_summary w = Ok (tt, w') →
  is_Some (materials (src w) !! id) →
  ∃ mus r,
    van_material_usage_summary (van w') = Some mus ∧ mus !! id = Some r
    ∧ used_job_areas r = Z.of_nat (length (job_area_uses (src w) id))
    ∧ used_elevations r
      = Z.of_nat (length (filter (λ e, material_id e = id)
                            (default [] (van_tpe_materials_extracted (van w)))))
    ∧ van_tpe_materials_extracted (van w')
      = Some (default [] (van_tpe_materials_extracted (van w))).
Proof.
  intros Hrun [m Hm]. revert Hrun. rewrite usage_summary_run.
  unfold usage_summary_outcome.
  destruct (pv_mat_after (src w) (van w)) as [p|]; [|done].
  intros [= <-]. do 2 eexists.
  split_and!; [reflexivity|by rewrite summary_of_lookup, Hm|..|reflexivity].
  - cbn [summary_row used_job_areas join_table j_row].
    by rewrite job_areas_of_lookup, agg_of_count by done.
  - cbn [summary_row used_elevations join_table j_row].
    by rewrite group_by_material_id_lookup, agg_of_count, length_fmap.
Qed.

Lemma usage_summary_reads_edges_witness :
  ∃ mus r,
    van_material_usage_summary
      (van (after rebuild_usage_summary with_project_views)) = Some mus
    ∧ mus !! 5 = Some r
    ∧ used_job_areas r
      = Z.of_nat (length (job_area_uses (src with_project_views) 5))
    ∧ used_elevations r
      = Z.of_nat (length (filter (λ e, material_id e = 5)
                            (default []
                               (van_tpe_materials_extracted
                                  (van with_project_views)))))
    ∧ van_tpe_materials_extracted
        (van (after rebuild_usage_summary with_project_views))
      = Some (default []
                (van_tpe_materials_extracted (van with_project_views))).
Proof.
  apply (usage_summary_reads_edges with_project_views).
  - vm_compute. reflexivity.
  - vm_compute. eauto.
Defined.

Section full.
Context `{SqlFunctions}.

(** A completed full rebuild, taken apart. *)
Lemma rebuild_all_completed w w' :
  rebuild_all w = Ok (tt, w') →
  ∃ p, pv_mat_rebuilt (src w) (van w) = Some p
    ∧ src w' = src w
    ∧ van_tpe_materials_extracted (van w')
      = Some (edges_of (tmp_project_elevations (src w)) 5000)
    ∧ van_jobareas_mat (van w') = Some (job_areas_of (src w) 5000)
    ∧ van_elev_mat (van w')
      = Some (group_by_material_id
                (edges_of (tmp_project_elevations (src w)) 5000))
    ∧ van_pv_mat (van w') = Some p
    ∧ van_material_usage_summary (van w')
      = Some (summary_of (src w) (job_areas_of (src w) 5000)
                (group_by_material_id
                   (edges_of (tmp_project_elevations (src w)) 5000)) p)
    ∧ van_duplicate_materials (van w')
      = Some (duplicates_of (src w) (clock w) (S (now_calls w))).
Proof.
  rewrite rebuild_all_run. unfold rebuild_all_outcome.
  destruct (pv_mat_rebuilt (src w) (van w)) as [p|]; [|done].
  intros [= <-]. exists p. by split_and!.
Qed.

(** X16.  After a completed full rebuild the three aggregate tables hold,
    for every material, what the source tables say: the job-area rows
    that lead to it, the populated elevation rows whose list names it,
    and (when the column exists) the populated project-view rows whose
    list names it, each row counted once, with the latest non-null date
    of those rows. *)
Theorem rebuild_all_aggregates w w' :
  rebuild_all w = Ok (tt, w') →
  ∃ j e p,
    van_jobareas_mat (van w') = Some j ∧ van_elev_mat (van w') = Some e
    ∧ van_pv_mat (van w') = Some p
    ∧ (∀ mid, j !! mid = agg_of (job_area_uses (src w) mid))
    ∧ (∀ mid, e !! mid
         = agg_of (lr_modified
                     <$> rows_naming (tmp_project_elevations (src w)) mid))
    ∧ (∀ pv mid, project_views (src w) = Some pv →
         p !! mid = agg_of (lr_modified <$> rows_naming pv mid)).
Proof.
  intros Hrun.
  destruct (rebuild_all_completed _ _ Hrun)
    as (p & Hp & _ & _ & Hj & He & Hpm & _).
  do 3 eexists. split_and!; [exact Hj|exact He|exact Hpm|..].
  - intros mid. by apply job_areas_of_lookup.
  - intros mid. by apply group_edges_of.
  - intros pv mid Hpv. unfold pv_mat_rebuilt, has_pv_column in Hp.
    rewrite Hpv in Hp. rewrite bool_decide_eq_true_2 in Hp by eauto.
    injection Hp as <-. cbn [default from_option id]. by apply group_edges_of.
Qed.

(** X17.  After a completed full rebuild the counts of the summary row
    of a material are the numbers of source rows that use it: job-area
    rows leading to it, populated elevation rows naming it, populated
    project-view rows naming it. *)
Theorem rebuild_all_counts w w' id :
  rebuild_all w = Ok (tt, w') →
  is_Some (materials (src w) !! id) →
  ∃ mus r,
    van_material_usage_summary (van w') = Some mus ∧ mus !! id = Some r
    ∧ used_job_areas r = Z.of_nat (length (job_area_uses (src w) id))
    ∧ used_elevations r
      = Z.of_nat (length (rows_naming (tmp_project_elevations (src w)) id))
    ∧ (∀ pv, project_views (src w) = Some pv →
         used_project_views r = Z.of_nat (length (rows_naming pv id))).
Proof.
  intros Hrun [m Hm].
  destruct (rebuild_all_completed _ _ Hrun)
    as (p & Hp & _ & _ & _ & _ & _ & Hmus & _).
  do 2 eexists. split_and!; [exact Hmus|by rewrite summary_of_lookup, Hm|..].
  - cbn [summary_row used_job_areas join_table j_row].
    by rewrite job_areas_of_lookup, agg_of_count by done.
  - cbn [summary_row used_elevations join_table j_row].
    by rewrite group_edges_of, agg_of_count, length_fmap by done.
  - intros pv Hpv. unfold pv_mat_rebuilt, has_pv_column in Hp.
    rewrite Hpv in Hp. rewrite bool_decide_eq_true_2 in Hp by eauto.
    injection Hp as <-. cbn [summary_row used_project_views join_table j_row].
    cbn [default from_option Datatypes.id].
    by rewrite group_edges_of, agg_of_count, length_fmap by done.
Qed.


End full.

#[local] Existing Instance toy_functions.

Lemma rebuild_all_aggregates_witness :
  ∃ j e p,
    van_jobareas_mat (van (after rebuild_all with_project_views)) = Some j
    ∧ van_elev_mat (van (after rebuild_all with_project_views)) = Some e
    ∧ van_pv_mat (van (after rebuild_all with_project_views)) = Some p
    ∧ (∀ mid, j !! mid = agg_of (job_area_uses (src with_project_views) mid))
    ∧ (∀ mid, e !! mid
         = agg_of (lr_modified
                     <$> rows_naming
                           (tmp_project_elevations (src with_project_views))
                           mid))
    ∧ (∀ pv mid, project_views (src with_project_views) = Some pv →
         p !! mid = agg_of (lr_modified <$> rows_naming pv mid)).
Proof.
  apply (rebuild_all_aggregates with_project_views). vm_compute. reflexivity.
Defined.

Lemma rebuild_all_counts_witness :
  ∃ mus r,
    van_material_usage_summary (van (after rebuild_all with_project_views))
    = Some mus
    ∧ mus !! 5 = Some r
    ∧ used_job_areas r
      = Z.of_nat (length (job_area_uses (src with_project_views) 5))
    ∧ used_elevations r
      = Z.of_nat (length (rows_naming
                            (tmp_project_elevations (src with_project_views))
                            5))
    ∧ (∀ pv, project_views (src with_project_views) = Some pv →
         used_project_views r = Z.of_nat (length (rows_naming pv 5))).
Proof.
  apply (rebuild_all_counts with_project_views).
  - vm_compute. reflexivity.
  - vm_compute. eauto.
Defined.


End counts.

(** ** The duplicate groups *)

Section duplicate_groups.
Import Exploder Chunks Sql Aggregator Outcome Uses Example.
Context `{SqlFunctions}.

Lemma dup_keys_elem expr_sql s k :
  k ∈ dup_keys expr_sql s
  ↔ ∃ m, materials s !! k.1 = Some m ∧ k.2 = key_hash expr_sql s m.
Proof.
  unfold dup_keys. rewrite list_elem_of_fmap. split.
  - intros ([id m] & -> & Him). apply elem_of_map_to_list in Him.
    by exists m.
  - intros (m & Hm & Hk). exists (k.1, m). split.
    + destruct k as [id h]. cbn in *. by rewrite Hk.
    + by apply elem_of_map_to_list.
Qed.

Lemma dup_keys_count expr_sql s h :
  length (filter (λ k : Z * option string, k.2 = Some h) (dup_keys expr_sql s))
  = length (same_hash expr_sql s h).
Proof.
  unfold dup_keys, same_hash, key_hash.
  induction (map_to_list (materials s)) as [|im l IH]; [done|].
  rewrite fmap_cons, !filter_cons. cbn [snd].
  destruct (decide (MD5 <$> expr_sql (base_join s im.2) = Some h));
    cbn [length]; by rewrite IH.
Qed.

Lemma dup_groups_elem keys g :
  g ∈ dup_groups keys
  ↔ g.1 ∈ keys.*2
    ∧ g.2 = Z.of_nat (length (filter (λ k : Z * option string, k.2 = g.1) keys))
    ∧ 1 < g.2.
Proof.
  unfold dup_groups. rewrite list_elem_of_filter, list_elem_of_fmap.
  setoid_rewrite elem_of_remove_dups. split.
  - intros (Hgt & h & -> & Hh). by split_and!.
  - intros (Hh & Hn & Hgt). split; [done|]. exists g.1. split; [|done].
    destruct g as [h n]. cbn in *. by rewrite Hn.
Qed.

Lemma dup_select_elem kt expr_sql now s d :
  d ∈ dup_select kt expr_sql now s
  ↔ ∃ m h,
      materials s !! d_material_id d = Some m
      ∧ key_hash expr_sql s m = Some h
      ∧ 1 < Z.of_nat (length (same_hash expr_sql s h))
      ∧ key_type d = kt ∧ group_hash d = h
      ∧ group_size d = Z.of_nat (length (same_hash expr_sql s h))
      ∧ d_snapshot_at d = now.
Proof.
  unfold dup_select. rewrite list_elem_of_bind. split.
  - intros ([[h|] n] & Hd & Hg); cbn [fst snd] in Hd;
      [|by apply elem_of_nil in Hd].
    apply dup_groups_elem in Hg as (_ & Hn & Hgt). cbn [fst snd] in *.
    apply list_elem_of_fmap in Hd as (k & -> & Hk).
    apply list_elem_of_filter in Hk as [Hkh Hk].
    apply dup_keys_elem in Hk as (m & Hm & Hkm).
    rewrite dup_keys_count in Hn. subst n.
    exists m, h. cbn. split_and!; try done. by rewrite <- Hkm.
  - intros (m & h & Hm & Hh & Hgt & Hkt & Hgh & Hgs & Hnow).
    exists (Some h, Z.of_nat (length (same_hash expr_sql s h))). split.
    + cbn [fst snd]. apply list_elem_of_fmap.
      exists (d_material_id d, Some h). split.
      * destruct d. cbn in *. by subst.
      * apply list_elem_of_filter. split; [done|].
        apply dup_keys_elem. exists m. by rewrite Hh.
    + apply dup_groups_elem. cbn [fst snd]. split_and!.
      * apply list_elem_of_fmap. exists (d_material_id d, Some h).
        split; [done|]. apply dup_keys_elem. exists m. by rewrite Hh.
      * by rewrite dup_keys_count.
      * done.
Qed.

(** X19.  What one strategy inserts: a material is listed exactly when
    its key is not NULL and at least one other material has the same key
    hash; its row carries that hash and, as [group_size], the number of
    materials with that hash (two or more). *)
Theorem dup_select_member kt expr_sql now s d :
  d ∈ dup_select kt expr_sql now s
  ↔ ∃ m h,
      materials s !! d_material_id d = Some m
      ∧ key_hash expr_sql s m = Some h
      ∧ 1 < Z.of_nat (length (same_hash expr_sql s h))
      ∧ key_type d = kt ∧ group_hash d = h
      ∧ group_size d = Z.of_nat (length (same_hash expr_sql s h))
      ∧ d_snapshot_at d = now.
Proof. apply dup_select_elem. Qed.

Lemma dup_keys_NoDup expr_sql s : NoDup (dup_keys expr_sql s).
Proof.
  unfold dup_keys. apply NoDup_fmap_2_strong; [|apply NoDup_map_to_list].
  intros [i1 m1] [i2 m2] H1 H2 [= -> _]. f_equal.
  apply elem_of_map_to_list in H1, H2. congruence.
Qed.

(** X20.  A strategy lists a material at most once: its rows are all
    different and no two of them are about the same material. *)
Theorem dup_select_once kt expr_sql now s :
  NoDup (dup_select kt expr_sql now s)
  ∧ ∀ d1 d2, d1 ∈ dup_select kt expr_sql now s →
             d2 ∈ dup_select kt expr_sql now s →
             d_material_id d1 = d_material_id d2 → d1 = d2.
Proof.
  split.
  - unfold dup_select. apply NoDup_bind.
    + intros [h1 n1] [h2 n2] d _ _ Hd1 Hd2. cbn [fst snd] in *.
      destruct h1 as [h1|]; [|by apply elem_of_nil in Hd1].
      destruct h2 as [h2|]; [|by apply elem_of_nil in Hd2].
      apply list_elem_of_fmap in Hd1 as (k1 & -> & _).
      apply list_elem_of_fmap in Hd2 as (k2 & [= -> -> _] & _). done.
    + intros [[h|] n] _; cbn [fst snd]; [|constructor].
      apply NoDup_fmap_2_strong; [|apply NoDup_filter, dup_keys_NoDup].
      intros [i1 h1] [i2 h2] [Hh1 _]%list_elem_of_filter
        [Hh2 _]%list_elem_of_filter [= ->]. cbn in *. congruence.
    + unfold dup_groups. apply NoDup_filter, NoDup_fmap_2_strong.
      * by intros h1 h2 _ _ [= ->].
      * apply NoDup_remove_dups.
  - intros d1 d2 (m1 & h1 & Hm1 & Hh1 & _ & Hk1 & Hg1 & Hs1 & Hn1)%dup_select_elem
      (m2 & h2 & Hm2 & Hh2 & _ & Hk2 & Hg2 & Hs2 & Hn2)%dup_select_elem Hid.
    rewrite Hid in Hm1. assert (m1 = m2) as -> by congruence.
    assert (h1 = h2) as -> by congruence.
    destruct d1, d2. cbn in *. congruence.
Qed.

Lemma duplicates_of_elem s ck n d :
  d ∈ duplicates_of s ck n
  ↔ ∃ (i : nat) st, strategies !! i = Some st
      ∧ d ∈ dup_select st.1 st.2 (ck (n + i)%nat) s.
Proof.
  unfold duplicates_of. rewrite !elem_of_app. split.
  - intros [Hd|[Hd|[Hd|Hd]]].
    + exists 0%nat, ("title", expr_title). by rewrite Nat.add_0_r.
    + exists 1%nat, ("title_brand", expr_title_brand).
      by rewrite Nat.add_1_r.
    + exists 2%nat, ("title_brand_style", expr_title_brand_style).
      by replace (n + 2)%nat with (S (S n)) by lia.
    + exists 3%nat, ("title_brand_style_category",
                     expr_title_brand_style_category).
      by replace (n + 3)%nat with (S (S (S n))) by lia.
  - intros (i & st & Hst & Hd).
    destruct i as [|[|[|[|i]]]]; cbn in Hst; [..|done];
      injection Hst as <-; cbn [fst snd] in Hd.
    + left. by rewrite Nat.add_0_r in Hd.
    + right; left. by rewrite Nat.add_1_r in Hd.
    + right; right; left. by replace (n + 2)%nat with (S (S n)) in Hd by lia.
    + right; right; right.
      by replace (n + 3)%nat with (S (S (S n))) in Hd by lia.
Qed.

(** X21.  [rebuild_duplicates] does not create its table: without it the
    run fails.  With it, the table is emptied once and then holds exactly
    what the four strategies insert, each with the NOW() of its own
    statement, whatever the table held before; no other helper table
    changes. *)
Theorem rebuild_duplicates_rows w :
  match van_duplicate_materials (van w) with
  | None =>
      rebuild_duplicates w = Err (NoSuchTable "van_duplicate_materials")
  | Some _ =>
      ∃ w' ds,
        rebuild_duplicates w = Ok (tt, w')
        ∧ van_duplicate_materials (van w') = Some ds
        ∧ (∀ d, d ∈ ds
             ↔ ∃ (i : nat) st, strategies !! i = Some st
                 ∧ d ∈ dup_select st.1 st.2
                         (clock w (now_calls w + i)%nat) (src w))
        ∧ now_calls w' = (4 + now_calls w)%nat
        ∧ src w' = src w
        ∧ van_material_usage_summary (van w')
          = van_material_usage_summary (van w)
        ∧ van_unused_materials (van w') = van_unused_materials (van w)
        ∧ van_jobareas_mat (van w') = van_jobareas_mat (van w)
        ∧ van_elev_mat (van w') = van_elev_mat (van w)
        ∧ van_pv_mat (van w') = van_pv_mat (van w)
        ∧ van_tpe_materials_extracted (van w')
          = van_tpe_materials_extracted (van w)
        ∧ van_pv_materials_extracted (van w')
          = van_pv_materials_extracted (van w)
  end.
Proof.
  destruct w as [s h pr ck n]. cbn [src van clock now_calls].
  destruct (van_duplicate_materials h) as [t|] eqn:Ht.
  - rewrite (duplicates_run t) by done.
    do 2 eexists. split; [reflexivity|].
    cbn [src van now_calls]. destruct h. cbn in *.
    split_and!; try reflexivity. apply duplicates_of_elem.
  - unfold rebuild_duplicates. rewrite run_bind.
    unfold truncate_table. cbn [van tget tname T_duplicates]. by rewrite Ht.
Qed.

End duplicate_groups.

(** ** The summary lookup with ids *)

Section summary_lookup_more.
Import Sql Aggregator Example.

(** X22.  [get_material_usage_stats] with a non-empty list of ids changes
    nothing and returns an entry exactly for the listed ids that have a
    summary row; an id without a row is left out without an error, and
    neither the order of the list nor a repeated id matters. *)
Theorem usage_stats_lookup w mus ids :
  van_material_usage_summary (van w) = Some mus → ids ≠ [] →
  ∃ res,
    get_material_usage_stats (Some ids) w = Ok (res, w)
    ∧ (∀ k, res !! k
            = if decide (k ∈ ids) then stats_of <$> mus !! k else None)
    ∧ (∀ ids', (∀ k, k ∈ ids ↔ k ∈ ids') →
         get_material_usage_stats (Some ids') w = Ok (res, w)).
Proof.
  intros Hmus Hne. destruct ids as [|id ids]; [done|].
  eexists. split_and!.
  - by apply usage_stats_filtered.
  - intros k. rewrite lookup_fmap.
    destruct (decide (k ∈ id :: ids)) as [Hin|Hout].
    + destruct (mus !! k) as [r|] eqn:Hk.
      * by rewrite (proj2 (map_lookup_filter_Some _ mus k r)).
      * rewrite (proj2 (map_lookup_filter_None _ mus k)); [done|by left].
    + rewrite (proj2 (map_lookup_filter_None _ mus k)); [done|].
      right. by intros r _.
  - intros ids' Hsame. destruct ids' as [|id' ids'].
    + specialize (Hsame id). rewrite elem_of_nil in Hsame.
      destruct (proj1 Hsame). by left.
    + rewrite (usage_stats_filtered _ mus) by done. do 3 f_equal.
      apply map_filter_ext. intros k r _. cbn. symmetry. apply Hsame.
Qed.

Lemma usage_stats_lookup_witness :
  ∃ res,
    get_material_usage_stats (Some [7; 1000])
      (after rebuild_usage_summary with_project_views)
    = Ok (res, after rebuild_usage_summary with_project_views)
    ∧ res !! 1000 = None.
Proof.
  destruct (usage_stats_lookup
              (after rebuild_usage_summary with_project_views)
              (default ∅ (van_material_usage_summary
                            (van (after rebuild_usage_summary
                                    with_project_views))))
              [7; 1000]) as (res & Hrun & Hlook & _).
  - vm_compute. reflexivity.
  - discriminate.
  - exists res. split; [exact Hrun|]. rewrite Hlook. vm_compute. reflexivity.
Defined.

End summary_lookup_more.

(** ** Paging *)

Section paging.
Import Pages.

Lemma page_count_bounds total page_size :
  1 <= page_size → 0 <= total →
  1 <= page_count total page_size
  ∧ total <= page_count total page_size * page_size
  ∧ (0 < total → (page_count total page_size - 1) * page_size < total)
  ∧ (total = 0 → page_count total page_size = 1).
Proof.
  intros Hps Htot. unfold page_count.
  pose proof (Z.div_mod (total - 1) page_size ltac:(lia)) as Hdiv.
  pose proof (Z.mod_pos_bound (total - 1) page_size ltac:(lia)) as Hmod.
  set (q := (total - 1) / page_size) in *.
  set (r := (total - 1) `mod` page_size) in *.
  destruct (Z.max_spec (q + 1) 1) as [[Hlt ->]|[Hle ->]]; nia.
Qed.

(** X23.  The paging arithmetic of the pages: there is at least one page;
    no page the user can pick starts past the last row, except the single
    page of an empty result; and the last page reaches the last row. *)
Theorem paging_offsets total page_size page :
  1 <= page_size → 0 <= total →
  1 <= page <= page_count total page_size →
  0 <= offset page page_size
  ∧ (offset page page_size < total ∨ (total = 0 ∧ page = 1))
  ∧ total <= offset (page_count total page_size) page_size + page_size.
Proof.
  intros Hps Htot Hpage.
  destruct (page_count_bounds total page_size Hps Htot)
    as (H1 & H2 & H3 & H4).
  unfold offset. split_and!; [nia| |nia].
  destruct (decide (total = 0)) as [Hz|Hpos].
  - right. specialize (H4 Hz). lia.
  - left. specialize (H3 ltac:(lia)). nia.
Qed.

Lemma paging_offsets_witness :
  0 <= offset 3 1000
  ∧ (offset 3 1000 < 2001 ∨ (2001 = 0 ∧ 3 = 1))
  ∧ 2001 <= offset (page_count 2001 1000) 1000 + 1000.
Proof.
  apply (paging_offsets 2001 1000 3); [lia|lia|].
  vm_compute. split; discriminate.
Defined.

Lemma shown_take_drop {A} page_size (k : nat) (rows : list A) :
  1 <= page_size →
  shown page_size (Z.of_nat k + 1) rows
  = take (Z.to_nat page_size) (drop (k * Z.to_nat page_size) rows).
Proof.
  intros Hps. unfold shown, limit_offset, offset. do 2 f_equal.
  replace (Z.of_nat k + 1 - 1) with (Z.of_nat k) by lia.
  rewrite Z2Nat.inj_mul by lia. by rewrite Nat2Z.id.
Qed.

Lemma pages_concat {A} page_size (n : nat) (rows : list A) :
  1 <= page_size →
  concat ((λ k, shown page_size (Z.of_nat k + 1) rows) <$> seq 0 n)
  = take (n * Z.to_nat page_size) rows.
Proof.
  intros Hps. induction n as [|n IH]; [done|].
  rewrite seq_S, fmap_app, concat_app, IH. cbn [fmap list_fmap concat].
  rewrite app_nil_r, Nat.add_0_l, shown_take_drop by done.
  rewrite take_take_drop. f_equal. lia.
Qed.

(** X24.  Paging a listing whose ORDER BY fixes the order of the rows:
    the pages 1 to [page_count], one after the other, show every row of
    the result once and in order; every page before the last is full, and
    the last page is empty only when the result is. *)
Theorem pages_partition {A} page_size (rows : list A) :
  1 <= page_size →
  let total := Z.of_nat (length rows) in
  concat ((λ k, shown page_size (Z.of_nat k + 1) rows)
            <$> seq 0 (Z.to_nat (page_count total page_size))) = rows
  ∧ (∀ page, 1 <= page < page_count total page_size →
       Z.of_nat (length (shown page_size page rows)) = page_size)
  ∧ (rows ≠ [] → shown page_size (page_count total page_size) rows ≠ []).
Proof.
  intros Hps total.
  destruct (page_count_bounds total page_size Hps ltac:(lia))
    as (H1 & H2 & H3 & H4).
  set (n := page_count total page_size) in *.
  assert (rows ≠ [] → 0 < total) as Hpos
    by (subst total; destruct rows; [done|cbn; lia]).
  split_and!.
  - rewrite pages_concat by done. apply take_ge. nia.
  - intros page Hpage.
    assert (0 < total) as Hlt by lia. specialize (H3 Hlt).
    replace page with (Z.of_nat (Z.to_nat (page - 1)) + 1) by lia.
    rewrite shown_take_drop by done.
    rewrite length_take, length_drop.
    assert (Z.to_nat (page - 1) * Z.to_nat page_size + Z.to_nat page_size
            <= length rows)%nat; [|lia].
    apply Nat2Z.inj_le. rewrite Nat2Z.inj_add, Nat2Z.inj_mul.
    rewrite !Z2Nat.id by lia. fold total. nia.
  - intros Hne. specialize (H3 (Hpos Hne)).
    replace n with (Z.of_nat (Z.to_nat (n - 1)) + 1) by lia.
    rewrite shown_take_drop by done.
    intros Hnil%(f_equal length). cbn in Hnil.
    rewrite length_take, length_drop in Hnil.
    assert (Z.to_nat (n - 1) * Z.to_nat page_size < length rows)%nat;
      [|lia].
    apply Nat2Z.inj_lt. rewrite Nat2Z.inj_mul.
    rewrite !Z2Nat.id by lia. by fold total.
Qed.

Lemma pages_partition_witness :
  let rows := [10; 9; 8; 7; 6] in
  let total := Z.of_nat (length rows) in
  concat ((λ k, shown 2 (Z.of_nat k + 1) rows)
            <$> seq 0 (Z.to_nat (page_count total 2))) = rows
  ∧ (∀ page, 1 <= page < page_count total 2 →
       Z.of_nat (length (shown 2 page rows)) = 2)
  ∧ (rows ≠ [] → shown 2 (page_count total 2) rows ≠ []).
Proof. apply (pages_partition 2 [10; 9; 8; 7; 6]). lia. Defined.

End paging.

(** ** The two listings of unused materials *)

Section unused_listings.
Import Sql Aggregator Outcome Pages Example.

(** X25.  Right after a completed [rebuild_usage_summary], the All
    Materials page with the usage filter Unused Materials and the Unused
    Materials page select the same materials, under any sidebar
    conditions. *)
Theorem unused_listings_agree sidebar w w' :
  rebuild_usage_summary w = Ok (tt, w') →
  ∃ ms,
    all_materials sidebar Unused_Materials w' = Ok (ms, w')
    ∧ unused_materials sidebar w' = Ok (ms, w').
Proof.
  intros Hrun.
  destruct (usage_summary_completed _ _ Hrun)
    as (p & _ & Hsrc & _ & _ & _ & Hmus & Hun).
  eexists. split.
  - unfold all_materials. rewrite run_bind. unfold select_from.
    cbn [tget tname T_usage_summary]. rewrite Hmus. reflexivity.
  - unfold unused_materials. rewrite run_bind. unfold select_from.
    cbn [tget tname T_unused]. rewrite Hun. unfold query. do 2 f_equal.
    apply map_filter_ext. intros id m Hm. cbn [fst snd].
    rewrite Hsrc in Hm.
    rewrite !andb_True. apply and_iff_compat_l.
    unfold usage_condition, unused_of.
    rewrite lookup_fmap, summary_of_lookup, Hm. cbn [fmap option_fmap option_map].
    set (r := summary_row _ _ _ id m).
    rewrite !bool_decide_spec. unfold COALESCE. cbn [default from_option Datatypes.id].
    destruct (decide (total_uses r = 0)) as [Hz|Hnz].
    + rewrite (proj2 (map_lookup_filter_Some _ _ id r)); [done|].
      split; [|done]. by rewrite summary_of_lookup, Hm.
    + rewrite (proj2 (map_lookup_filter_None _ _ id)).
      * split; [done|]. intros Hz. by destruct Hnz.
      * right. rewrite summary_of_lookup, Hm. by intros ? [= <-].
Qed.

Lemma unused_listings_agree_witness :
  ∃ ms,
    all_materials (λ _ _, true) Unused_Materials
      (after rebuild_usage_summary with_project_views)
    = Ok (ms, after rebuild_usage_summary with_project_views)
    ∧ unused_materials (λ _ _, true)
        (after rebuild_usage_summary with_project_views)
      = Ok (ms, after rebuild_usage_summary with_project_views).
Proof.
  apply (unused_listings_agree (λ _ _, true) with_project_views).
  vm_compute. reflexivity.
Defined.

End unused_listings.
